(** * Verification of the metadata-synthesis pipeline of [ai_generator.py]

    The development embeds the class [AIMetadataGenerator] of
    [src/ai_generator.py]: the Python string methods it calls, the integer
    arithmetic of the frame sampler, an exception-and-trace monad for the
    calls to OpenCV, PIL and the generative model, and the four pipeline
    stages.  The properties of the specification are stated and settled
    at the end of the file. *)

From Stdlib Require Import String Ascii List ZArith NArith Bool Lia.
Import ListNotations.

(* ===================================================================== *)
(** * Python strings *)
(* ===================================================================== *)

(** A Python [str] is a sequence of Unicode code points.  The methods below
    are the ones [ai_generator.py] calls, with CPython's behaviour. *)
Module PyStr.

Definition char := N.
Definition str := list char.

(** An ASCII literal of the source, as code points. *)
Definition lit (s : string) : str :=
  map N_of_ascii (list_ascii_of_string s).
Arguments lit s%_string.

Definition LF : char := 10%N.
Definition COMMA : char := 44%N.
Definition HASH : char := 35%N.
Definition DQUOTE : char := 34%N.
Definition SQUOTE : char := 39%N.

(** [str.isspace] on one code point: the characters that [strip()] and
    [split()] without arguments treat as whitespace. *)
Definition isspace (c : char) : bool :=
  (((9 <=? c) && (c <=? 13)) || ((28 <=? c) && (c <=? 32))
   || (c =? 133) || (c =? 160) || (c =? 5760)
   || ((8192 <=? c) && (c <=? 8202))
   || (c =? 8232) || (c =? 8233) || (c =? 8239) || (c =? 8287)
   || (c =? 12288))%N.

Fixpoint eqb (s1 s2 : str) : bool :=
  match s1, s2 with
  | [], [] => true
  | a :: s1', b :: s2' => (a =? b)%N && eqb s1' s2'
  | _, _ => false
  end.

(** [s.startswith(p)] *)
Fixpoint startswith (s p : str) {struct p} : bool :=
  match p with
  | [] => true
  | a :: p' =>
      match s with
      | [] => false
      | b :: s' => (a =? b)%N && startswith s' p'
      end
  end.

(** [s.lstrip()], [s.rstrip()] and [s.strip()] *)
Fixpoint lstrip (s : str) : str :=
  match s with
  | [] => []
  | c :: t => if isspace c then lstrip t else s
  end.

Fixpoint rstrip (s : str) : str :=
  match s with
  | [] => []
  | c :: t =>
      match rstrip t with
      | [] => if isspace c then [] else [c]
      | t' => c :: t'
      end
  end.

Definition strip (s : str) : str := rstrip (lstrip s).

(** The fields of [s] between the characters that satisfy [sep]; a string
    with [k] separators has [k + 1] fields, some of them possibly empty. *)
Fixpoint fields (sep : char -> bool) (s : str) : list str :=
  match s with
  | [] => [[]]
  | c :: t =>
      if sep c then [] :: fields sep t
      else match fields sep t with
           | [] => [[c]]
           | w :: ws => (c :: w) :: ws
           end
  end.

(** [s.split(sep)] for a separator of one character, which is how the
    source calls it (['\n'] and [',']): empty fields are kept. *)
Definition split_on (sep : char) (s : str) : list str :=
  fields (N.eqb sep) s.

Definition nonempty (s : str) : bool :=
  match s with [] => false | _ :: _ => true end.

(** [s.split()]: runs of whitespace separate the tokens, and no empty
    string is produced. *)
Definition split (s : str) : list str :=
  filter nonempty (fields isspace s).

(** [s.replace(old, new)] replaces the occurrences of [old] from left to
    right, without overlap.  [skip] counts the characters of a matched
    occurrence that are still to be dropped. *)
Fixpoint replace_from (old new : str) (skip : nat) (s : str) : str :=
  match s with
  | [] => []
  | c :: t =>
      match skip with
      | S k => replace_from old new k t
      | O =>
          if startswith s old
          then new ++ replace_from old new (length old - 1) t
          else c :: replace_from old new 0 t
      end
  end.

Definition replace (s old new : str) : str :=
  match old with
  | [] => new ++ flat_map (fun c => c :: new) s
  | _ :: _ => replace_from old new 0 s
  end.

(** [sep.join(parts)] *)
Fixpoint join (sep : str) (parts : list str) : str :=
  match parts with
  | [] => []
  | [p] => p
  | p :: ps => p ++ sep ++ join sep ps
  end.

(** The slice [l[:n]] for [n >= 0]. *)
Definition slice_to {A} (n : nat) (l : list A) : list A := firstn n l.

End PyStr.
Import PyStr.

(* ===================================================================== *)
(** * Python numbers *)
(* ===================================================================== *)

(** [int(a / b)] for Python integers [a] and [b].  The operator [/] is true
    division: its result is the binary64 number nearest to the exact
    quotient (ties to even), and [int] then truncates toward zero.  The
    model works on integers only: the 53-bit significand [m] of the rounded
    quotient and its exponent [e] are computed exactly. *)
Module PyNum.
Local Open Scope Z_scope.

(** The integer nearest to [num / den], ties to the even one
    ([0 <= num], [0 < den]). *)
Definition round_half_even (num den : Z) : Z :=
  let q := num / den in
  let r := num mod den in
  match 2 * r ?= den with
  | Lt => q
  | Gt => q + 1
  | Eq => if Z.even q then q else q + 1
  end.

(** [floor (log2 (a / b))] for [0 < a] and [0 < b]. *)
Definition quot_exponent (a b : Z) : Z :=
  let e0 := Z.log2 a - Z.log2 b in
  if b * 2 ^ Z.max e0 0 <=? a * 2 ^ Z.max (- e0) 0 then e0 else e0 - 1.

(** [int(a / b)] for [0 < a] and [0 < b]; [None] stands for the
    [OverflowError] of a quotient beyond the binary64 range.  Below the
    normal range the significand is shorter than computed here, but the
    quotient is then less than one and truncates to zero either way. *)
Definition int_truediv_pos (a b : Z) : option Z :=
  let e := quot_exponent a b in
  let s := 52 - e in
  let m := round_half_even (a * 2 ^ Z.max s 0) (b * 2 ^ Z.max (- s) 0) in
  if (1023 <? e) || ((e =? 1023) && (m =? 2 ^ 53)) then None
  else Some ((m * 2 ^ Z.max (- s) 0) / 2 ^ Z.max s 0).

(** [int(a / b)]; [None] stands for [ZeroDivisionError] or
    [OverflowError]. *)
Definition int_truediv (a b : Z) : option Z :=
  if b =? 0 then None
  else if a =? 0 then Some 0
  else option_map (fun v => Z.sgn a * Z.sgn b * v)
                  (int_truediv_pos (Z.abs a) (Z.abs b)).

(** [range(n)] *)
Definition range (n : Z) : list Z := map Z.of_nat (seq 0 (Z.to_nat n)).

End PyNum.
Import PyNum.

(* ===================================================================== *)
(** * Exceptions, external calls and their trace *)
(* ===================================================================== *)

(** The pipeline calls OpenCV, PIL, the generative model, the clock and
    [print].  What these calls answer is given by an environment, and every
    call is recorded in a trace, so that theorems can speak about which
    calls were made and in which order. *)
Module Effects.

(** An exception, with the text that [f"{e}"] prints. *)
Inductive exn := Exception (msg : str).

Definition exn_msg (e : exn) : str := match e with Exception m => m end.

(** The outcome of a call: a value or a raised exception. *)
Inductive result (A : Type) :=
| Ok (a : A)
| Raise (e : exn).
Arguments Ok {A} a.
Arguments Raise {A} e.

(** Decoded frame data (a numpy array) and a PIL image; the pixels play
    no part in the control flow and are abstracted to an identifier. *)
Inductive ndarray := NdArray (id : N).
Inductive Image := PilImage (id : N).

(** An opened [cv2.VideoCapture]. *)
Record Capture := {
  (** [int(cap.get(cv2.CAP_PROP_FRAME_COUNT))] *)
  cap_frame_count : result Z;
  (** [cap.set(cv2.CAP_PROP_POS_FRAMES, n)]; the returned flag is ignored
      by the source *)
  cap_set : Z -> result unit;
  (** [cap.read()] in iteration [i], after the seek to [n]: [Ok None] is
      [(False, None)], [Ok (Some f)] is [(True, f)] *)
  cap_read : Z -> Z -> result (option ndarray)
}.

Record Env := {
  (** [cv2.VideoCapture(path)] *)
  VideoCapture : str -> result Capture;
  (** [cv2.cvtColor(frame, cv2.COLOR_BGR2RGB)] *)
  cvtColor : ndarray -> result ndarray;
  (** [Image.fromarray(a)] *)
  fromarray : ndarray -> result Image;
  (** [img.resize((w, h), Image.Resampling.LANCZOS)] *)
  resize : Image -> Z * Z -> result Image;
  (** [self.model.generate_content(...)] followed by [.text], for the
      call number [k] (counted from zero) with the given prompt and
      optional image *)
  generate_content : nat -> str -> option Image -> result str;
  (** [datetime.now().isoformat()] *)
  now_isoformat : str
}.

Inductive event :=
| EvCapOpen (path : str)
| EvCapGet
| EvCapSet (pos : Z)
| EvCapRead
| EvCapRelease
| EvGenerate (prompt : str) (image : option Image)
| EvPrint (msg : str).

Definition trace := list event.

Definition is_generate (ev : event) : bool :=
  match ev with EvGenerate _ _ => true | _ => false end.

Definition is_release (ev : event) : bool :=
  match ev with EvCapRelease => true | _ => false end.

(** The number of model calls made so far. *)
Definition model_calls (t : trace) : nat := length (filter is_generate t).

(** A computation reads the environment, extends the trace and returns
    or raises. *)
Definition M (A : Type) : Type := Env -> trace -> result A * trace.

Definition ret {A} (a : A) : M A := fun _ t => (Ok a, t).

Definition raise {A} (e : exn) : M A := fun _ t => (Raise e, t).

Definition bind {A B} (m : M A) (k : A -> M B) : M B :=
  fun env t =>
    match m env t with
    | (Ok a, t') => k a env t'
    | (Raise e, t') => (Raise e, t')
    end.

(** [try: m except Exception as e: h e] *)
Definition try_except {A} (m : M A) (h : exn -> M A) : M A :=
  fun env t =>
    match m env t with
    | (Ok a, t') => (Ok a, t')
    | (Raise e, t') => h e env t'
    end.

(** An external call: recorded, then answered by the environment. *)
Definition call {A} (ev : event) (answer : Env -> result A) : M A :=
  fun env t => (answer env, t ++ [ev]).

Definition print (msg : str) : M unit :=
  call (EvPrint msg) (fun _ => Ok tt).

(** [for x in xs: s = body x s] *)
Fixpoint for_each {A S} (xs : list A) (body : A -> S -> M S) (s : S) : M S :=
  match xs with
  | [] => ret s
  | x :: xs' => bind (body x s) (for_each xs' body)
  end.

End Effects.
Import Effects.

Declare Scope py_scope.
Delimit Scope py_scope with py.
Notation "x <- m ;; k" := (bind m (fun x => k))
  (at level 61, m at next level, right associativity) : py_scope.
Notation "m ;;; k" := (bind m (fun _ => k))
  (at level 61, right associativity) : py_scope.

(* ===================================================================== *)
(** * The class [AIMetadataGenerator] *)
(* ===================================================================== *)

Module AIMetadataGenerator.
Local Open Scope py_scope.

(** ** Values of the metadata dictionary *)

Inductive pyval :=
| PNone
| PStr (s : str)
| PList (l : list str).

(** A [dict] with [str] keys, in insertion order. *)
Definition Dict := list (str * pyval).

Fixpoint dict_get (d : Dict) (key : str) : option pyval :=
  match d with
  | [] => None
  | (k, v) :: d' => if PyStr.eqb k key then Some v else dict_get d' key
  end.

(** ** External calls *)

Definition cv2_VideoCapture (path : str) : M Capture :=
  call (EvCapOpen path) (fun env => VideoCapture env path).

Definition cap_get_frame_count (cap : Capture) : M Z :=
  call EvCapGet (fun _ => cap_frame_count cap).

Definition cap_set_pos (cap : Capture) (n : Z) : M unit :=
  call (EvCapSet n) (fun _ => cap_set cap n).

Definition cap_read_frame (cap : Capture) (i n : Z) : M (option ndarray) :=
  call EvCapRead (fun _ => cap_read cap i n).

Definition cap_release (cap : Capture) : M unit :=
  call EvCapRelease (fun _ => Ok tt).

Definition cv2_cvtColor (frame : ndarray) : M ndarray :=
  fun env t => (cvtColor env frame, t).

Definition Image_fromarray (a : ndarray) : M Image :=
  fun env t => (fromarray env a, t).

Definition Image_resize (img : Image) (size : Z * Z) : M Image :=
  fun env t => (resize env img size, t).

(** [self.model.generate_content(...)] and the read of [response.text] *)
Definition model_generate (prompt : str) (image : option Image) : M str :=
  fun env t =>
    (generate_content env (model_calls t) prompt image,
     t ++ [EvGenerate prompt image]).

Definition datetime_now_isoformat : M str :=
  fun env t => (Ok (now_isoformat env), t).

(** [int(a / b)], with the [ZeroDivisionError] or [OverflowError] that
    the division raises. *)
Definition int_div (a b : Z) : M Z :=
  match int_truediv a b with
  | Some q => ret q
  | None =>
      if (b =? 0)%Z
      then raise (Exception (lit "division by zero"))
      else raise (Exception
                    (lit "integer division result too large for a float"))
  end.

(** ** [extract_video_frames] *)

(** The body of the loop over [i], with [frames] as the list built so
    far. *)
Definition sample_frame (cap : Capture) (frame_count num_frames : Z)
           (i : Z) (frames : list Image) : M (list Image) :=
  frame_number <- int_div ((i + 1) * frame_count) (num_frames + 1) ;;
  cap_set_pos cap frame_number ;;;
  r <- cap_read_frame cap i frame_number ;;
  match r with
  | Some frame =>
      frame_rgb <- cv2_cvtColor frame ;;
      pil_image <- Image_fromarray frame_rgb ;;
      pil_image <- Image_resize pil_image (512, 512)%Z ;;
      ret (frames ++ [pil_image])
  | None => ret frames
  end.

(** The statements of the [try] block. *)
Definition extract_video_frames_try (video_path : str) (num_frames : Z)
  : M (list Image) :=
  cap <- cv2_VideoCapture video_path ;;
  frame_count <- cap_get_frame_count cap ;;
  frames <- for_each (range num_frames)
                     (sample_frame cap frame_count num_frames) [] ;;
  cap_release cap ;;;
  ret frames.

Definition extract_video_frames (video_path : str) (num_frames : Z)
  : M (list Image) :=
  try_except
    (extract_video_frames_try video_path num_frames)
    (fun e =>
       print (lit "Error extracting frames: " ++ exn_msg e) ;;;
       ret []).

(** ** [analyze_video_content] *)

Definition analysis_prompt : str :=
  join [LF]
    [ [];
      lit "            Analyze this video frame and describe what you see briefly. Focus on:";
      lit "            1. Main subject/person and their actions";
      lit "            2. Setting/location ";
      lit "            3. Key objects or activities visible";
      lit "            4. Overall mood and style";
      lit "            ";
      lit "            Keep the description concise and specific to what's actually shown in the image.";
      lit "            " ].

Definition UNABLE_TO_ANALYZE : str := lit "Unable to analyze video content".

Definition ANALYSIS_UNAVAILABLE : str :=
  lit "Video content analysis unavailable".

Definition analyze_video_content (video_path : str) : M str :=
  try_except
    (frames <- extract_video_frames video_path 2 ;;
     match frames with
     | [] => ret UNABLE_TO_ANALYZE
     | frame :: _ =>
         text <- model_generate analysis_prompt (Some frame) ;;
         ret (strip text)
     end)
    (fun e =>
       print (lit "Error analyzing video content: " ++ exn_msg e) ;;;
       ret ANALYSIS_UNAVAILABLE).

(** ** [generate_title] *)

Definition title_prompt (video_analysis : str) : str :=
  join [LF]
    [ [];
      lit "        Based on this video analysis, create a catchy YouTube title:";
      lit "        ";
      lit "        VIDEO CONTENT: " ++ video_analysis;
      lit "        ";
      lit "        Requirements:";
      lit "        - Make it engaging and click-worthy";
      lit "        - Keep it under 80 characters";
      lit "        - Focus on the main subject/activity in the video";
      lit "        - Make it SEO-friendly with trending keywords";
      lit "        ";
      lit "        Return only the title, nothing else.";
      lit "        " ].

Definition FALLBACK_TITLE : str := lit "Amazing Video Content".

(** [text.strip()] followed by the two [replace] calls, which delete
    every double quote and then every single quote. *)
Definition clean_title (text : str) : str :=
  replace (replace (strip text) [DQUOTE] []) [SQUOTE] [].

Definition generate_title (video_analysis : str) : M str :=
  let prompt := title_prompt video_analysis in
  try_except
    (text <- model_generate prompt None ;;
     ret (clean_title text))
    (fun e =>
       print (lit "Error generating title: " ++ exn_msg e) ;;;
       ret FALLBACK_TITLE).

(** ** [generate_description] and [_fallback_description] *)

Definition DISCLAIMER : str :=
  [9888%N; 65039%N] ++ lit " Copyright Disclaimer: This content is used for educational and entertainment purposes. All rights belong to their respective owners. If you are the owner and want this removed, please contact us.".

Definition description_prompt (video_analysis : str) : str :=
  join [LF]
    [ [];
      lit "        Create a complete YouTube video description based on this video analysis:";
      lit "        ";
      lit "        VIDEO CONTENT: " ++ video_analysis;
      lit "        ";
      lit "        Structure the description exactly like this:";
      lit "        ";
      lit "        1. Write exactly 10 lines of engaging description about what viewers will see";
      lit "        2. Add a line break then write " ++ [DQUOTE] ++ lit "Keywords:" ++ [DQUOTE] ++ lit " followed by exactly 20 relevant keywords separated by commas";
      lit "        3. Add a line break then write " ++ [DQUOTE] ++ lit "Hashtags:" ++ [DQUOTE] ++ lit " followed by exactly 30 hashtags (include #shorts, #viral, #trending and other relevant ones)";
      lit "        4. Add a line break then add this copyright disclaimer: " ++ [DQUOTE] ++ DISCLAIMER ++ [DQUOTE];
      lit "        ";
      lit "        Make sure to include trending keywords and hashtags relevant to the actual video content.";
      lit "        " ].

Definition _fallback_description : str :=
  join [LF]
    [ lit "Amazing video content that will keep you entertained!";
      lit "Watch this incredible moment captured on video.";
      lit "Perfect for sharing with friends and family.";
      lit "Don't forget to like and subscribe for more content.";
      lit "This video showcases some really cool stuff.";
      lit "You won't believe what happens in this video.";
      lit "Make sure to watch until the end.";
      lit "Comment below what you think about this.";
      lit "Share this video if you enjoyed it.";
      lit "Thanks for watching our content!";
      [];
      lit "Keywords: viral video, trending content, amazing moments, entertainment, social media, short video, funny clips, must watch, incredible, awesome, cool stuff, viral clips, trending now, popular video, engaging content, shareable, entertaining, video content, social sharing, watch now";
      [];
      lit "Hashtags: #shorts #viral #trending #amazing #entertainment #video #content #socialmedia #funny #cool #awesome #mustwatch #incredible #popular #engaging #shareable #entertaining #videooftheday #trend #viral2024 #shortsvideo #viralshorts #trendingshorts #amazingvideo #viralcontent #shortsfeed #explore #fyp #foryou #viralmoment";
      [];
      DISCLAIMER ].

Definition generate_description (video_analysis : str) : M str :=
  let prompt := description_prompt video_analysis in
  try_except
    (text <- model_generate prompt None ;;
     ret (strip text))
    (fun e =>
       print (lit "Error generating description: " ++ exn_msg e) ;;;
       ret _fallback_description).

(** ** [generate_complete_metadata] *)

(** The three lists that the scan of the description lines assigns. *)
Record Parsed := {
  hashtags : list str;
  keywords : list str;
  tags : list str
}.

Definition HASHTAGS_LABEL : str := lit "Hashtags:".
Definition KEYWORDS_LABEL : str := lit "Keywords:".

(** The right-hand sides of the two assignments. *)
Definition hashtags_of_line (line : str) : list str :=
  let hashtags_text := strip (replace line HASHTAGS_LABEL []) in
  map strip (filter (fun tag => startswith tag [HASH]) (split hashtags_text)).

Definition keywords_of_line (line : str) : list str :=
  let keywords_text := strip (replace line KEYWORDS_LABEL []) in
  map strip (split_on COMMA keywords_text).

(** One iteration of [for line in description_lines]. *)
Definition scan_line (p : Parsed) (line : str) : Parsed :=
  if startswith line HASHTAGS_LABEL then
    {| hashtags := hashtags_of_line line;
       keywords := keywords p;
       tags := tags p |}
  else if startswith line KEYWORDS_LABEL then
    let kws := keywords_of_line line in
    {| hashtags := hashtags p;
       keywords := kws;
       tags := slice_to 15 kws |}
  else p.

Definition scan_lines (lines : list str) : Parsed :=
  fold_left scan_line lines {| hashtags := []; keywords := []; tags := [] |}.

Definition parse_description (description : str) : Parsed :=
  scan_lines (split_on LF description).

Definition metadata_dict (video_analysis title description : str)
           (p : Parsed) (generated_at : str) : Dict :=
  [ (lit "video_analysis", PStr video_analysis);
    (lit "title", PStr title);
    (lit "description", PStr description);
    (lit "tags", PList (tags p));
    (lit "hashtags", PList (hashtags p));
    (lit "keywords", PList (keywords p));
    (lit "generated_at", PStr generated_at) ].

(** The progress messages, each led by an emoji. *)
Definition MSG_ANALYZING : str :=
  [129302%N] ++ lit " Analyzing video content with AI...".
Definition MSG_ANALYZED : str :=
  [128249%N] ++ lit " Video analysis complete".
Definition MSG_TITLE : str :=
  [127919%N] ++ lit " Generating title...".
Definition MSG_DESCRIPTION : str :=
  [128221%N] ++ lit " Generating description with keywords and hashtags...".

Definition generate_complete_metadata (video_path : str) : M Dict :=
  print MSG_ANALYZING ;;;
  video_analysis <- analyze_video_content video_path ;;
  print MSG_ANALYZED ;;;
  print MSG_TITLE ;;;
  title <- generate_title video_analysis ;;
  print MSG_DESCRIPTION ;;;
  description <- generate_description video_analysis ;;
  let p := parse_description description in
  generated_at <- datetime_now_isoformat ;;
  ret (metadata_dict video_analysis title description p generated_at).

End AIMetadataGenerator.
Import AIMetadataGenerator.

(* ===================================================================== *)
(** * Predicates of the specification *)
(* ===================================================================== *)

Module Spec.

(** The seven keys of a metadata record. *)
Definition metadata_keys : list str :=
  [ lit "video_analysis"; lit "title"; lit "description"; lit "tags";
    lit "hashtags"; lit "keywords"; lit "generated_at" ].

(** Every field is present and is not [None]. *)
Definition fully_populated (md : Dict) : Prop :=
  forall key, In key metadata_keys ->
    exists v, dict_get md key = Some v /\ v <> PNone.

(** The field [key] holds a string that is not empty. *)
Definition nonempty_field (md : Dict) (key : str) : Prop :=
  exists s, dict_get md key = Some (PStr s) /\ s <> [].

Definition is_quote (c : char) : bool :=
  ((c =? DQUOTE) || (c =? SQUOTE))%N.

(** A character other than a quote, and one other than whitespace. *)
Definition not_quote (c : char) : bool := negb (is_quote c).

Definition not_space (c : char) : bool := negb (isspace c).

(** The reading of the specification for titles: only the quote
    characters around the trimmed text are removed ([s.strip(chars)]
    with the two quote characters). *)
Fixpoint lstrip_quotes (s : str) : str :=
  match s with
  | [] => []
  | c :: t => if is_quote c then lstrip_quotes t else s
  end.

Fixpoint rstrip_quotes (s : str) : str :=
  match s with
  | [] => []
  | c :: t =>
      match rstrip_quotes t with
      | [] => if is_quote c then [] else [c]
      | t' => c :: t'
      end
  end.

Definition strip_surrounding_quotes (s : str) : str :=
  rstrip_quotes (lstrip_quotes s).

(** The sample position of the specification:
    [floor ((i + 1) * T / (N + 1))]. *)
Definition sample_position (T N i : Z) : Z := ((i + 1) * T / (N + 1))%Z.

(** The video at [path] opens with [T] frames, and every seek, decode
    and conversion succeeds. *)
Record healthy_video (env : Env) (path : str) (cap : Capture) (T : Z)
  : Prop := {
  hv_open : VideoCapture env path = Ok cap;
  hv_count : cap_frame_count cap = Ok T;
  hv_seek : forall n, cap_set cap n = Ok tt;
  hv_read : forall i n, exists frame, cap_read cap i n = Ok (Some frame);
  hv_cvt : forall a, exists b, cvtColor env a = Ok b;
  hv_pil : forall a, exists img, fromarray env a = Ok img;
  hv_resize : forall img sz, exists img', resize env img sz = Ok img'
}.
Arguments hv_open {env path cap T}.
Arguments hv_count {env path cap T}.
Arguments hv_seek {env path cap T}.
Arguments hv_read {env path cap T}.
Arguments hv_cvt {env path cap T}.
Arguments hv_pil {env path cap T}.
Arguments hv_resize {env path cap T}.

(** [img] is what iteration [i] appends: the frame read after the seek
    to [n], converted and resized. *)
Definition sampled_at (env : Env) (cap : Capture) (i n : Z) (img : Image)
  : Prop :=
  exists frame rgb pil,
    cap_read cap i n = Ok (Some frame) /\
    cvtColor env frame = Ok rgb /\
    fromarray env rgb = Ok pil /\
    resize env pil (512, 512)%Z = Ok img.

(** The events of one iteration of the sampling loop. *)
Definition seek_and_read (n : Z) : trace := [EvCapSet n; EvCapRead].

(** Every capture opened in the trace is released later on. *)
Fixpoint handles_released (t : trace) : bool :=
  match t with
  | [] => true
  | EvCapOpen _ :: t' => existsb is_release t' && handles_released t'
  | _ :: t' => handles_released t'
  end.

(** No line of [lines] starts with [label]. *)
Definition no_line_with (label : str) (lines : list str) : Prop :=
  Forall (fun line => startswith line label = false) lines.

(** [pos i] is the position that iteration [i] of the sampling loop
    computes, for every [i] of [idxs]. *)
Definition computes_positions (T N : Z) (pos : Z -> Z) (idxs : list Z)
  : Prop :=
  forall i, In i idxs ->
    int_truediv ((i + 1) * T) (N + 1)%Z = Some (pos i).

(** The positions of the seeks recorded in a trace. *)
Fixpoint seek_positions (t : trace) : list Z :=
  match t with
  | [] => []
  | EvCapSet n :: t' => n :: seek_positions t'
  | _ :: t' => seek_positions t'
  end.

(** A computation that records no event of the kind [p]. *)
Definition avoids (p : event -> bool) {A} (m : M A) : Prop :=
  forall env t, filter p (snd (m env t)) = filter p t.

(** A computation that always returns and never raises. *)
Definition never_raises {A} (m : M A) : Prop :=
  forall env t, exists a t', m env t = (Ok a, t').

(** A token that starts with the marker character. *)
Definition is_marker (tag : str) : bool := startswith tag [HASH].

(** The two invariants of the scan. *)
Definition tags_follow (p : Parsed) : Prop :=
  tags p = slice_to 15 (keywords p).

Definition all_marked (p : Parsed) : Prop :=
  Forall (fun tag => is_marker tag = true) (hashtags p).

End Spec.
Import Spec.

(* ===================================================================== *)
(** * Concrete environments and documents *)
(* ===================================================================== *)

Module Examples.
Local Open Scope Z_scope.

(** A capture of [T] frames on which every seek and read succeeds; the
    frame read after a seek to [n] is identified by [n]. *)
Definition steady_capture (T : Z) : Capture :=
  {| cap_frame_count := Ok T;
     cap_set := fun _ => Ok tt;
     cap_read := fun _ n => Ok (Some (NdArray (Z.to_N n))) |}.

(** The capture that OpenCV gives for a file it cannot open: no frame
    count and no frame. *)
Definition unopened_capture : Capture :=
  {| cap_frame_count := Ok 0;
     cap_set := fun _ => Ok tt;
     cap_read := fun _ _ => Ok None |}.

Definition image_of (a : ndarray) : Image :=
  match a with NdArray id => PilImage id end.

(** The model answers of three kinds of service. *)
Definition failing_model : nat -> str -> option Image -> result str :=
  fun _ _ _ => Raise (Exception (lit "quota exceeded")).

Definition blank_model : nat -> str -> option Image -> result str :=
  fun _ _ _ => Ok (lit "  ").

(** The answer is one blank between two double quotes. *)
Definition quoted_blank_model : nat -> str -> option Image -> result str :=
  fun _ _ _ => Ok [DQUOTE; 32%N; DQUOTE].

Definition chatty_model : nat -> str -> option Image -> result str :=
  fun _ _ _ => Ok (lit " 'Don't Blink' ").

Definition CLOCK : str := lit "2024-05-01T12:00:00.000000".

(** An environment in which every file opens as [cap] and every
    conversion succeeds. *)
Definition studio (cap : Capture)
           (model : nat -> str -> option Image -> result str) : Env :=
  {| VideoCapture := fun _ => Ok cap;
     cvtColor := fun a => Ok a;
     fromarray := fun a => Ok (image_of a);
     resize := fun img _ => Ok img;
     generate_content := model;
     now_isoformat := CLOCK |}.

(** The same, except that the colour conversion raises. *)
Definition bad_pixels (cap : Capture)
           (model : nat -> str -> option Image -> result str) : Env :=
  {| VideoCapture := fun _ => Ok cap;
     cvtColor := fun _ => Raise (Exception (lit "cvtColor failed"));
     fromarray := fun a => Ok (image_of a);
     resize := fun img _ => Ok img;
     generate_content := model;
     now_isoformat := CLOCK |}.

Definition CLIP : str := lit "clip.mp4".

(** A frame count that binary64 represents exactly and that exceeds
    [2 ^ 53]. *)
Definition HUGE : Z := 2 ^ 54 - 2.

(** A document with two lines of each label and empty keyword
    segments. *)
Definition TWICE_LABELLED : str :=
  join [LF]
    [ lit "Two cats.";
      lit "Keywords: old, stale";
      lit "Hashtags: #old";
      lit "Keywords: cat,, dog,";
      lit "Hashtags: #cat dog #pets";
      lit "The end." ].

End Examples.
Import Examples.

(* ===================================================================== *)
(** * Further predicates on the pipeline *)
(* ===================================================================== *)

Module Spec2.
Local Open Scope Z_scope.

(** The last line of [lines] that starts with [label]. *)
Definition last_line_with (label : str) (lines : list str) : option str :=
  find (fun line => startswith line label) (rev lines).

(** A line that one of the two branches of the scan handles. *)
Definition is_labelled (line : str) : bool :=
  startswith line HASHTAGS_LABEL || startswith line KEYWORDS_LABEL.

(** A string without whitespace at either end. *)
Definition trimmed (s : str) : Prop :=
  match s with
  | [] => True
  | c :: _ => isspace c = false /\ isspace (last s c) = false
  end.

Definition COLON : char := 58%N.

(** The video at [path] opens with [T] frames and no call raises; a read
    may still report that no frame was decoded. *)
Record readable_video (env : Env) (path : str) (cap : Capture) (T : Z)
  : Prop := {
  rv_open : VideoCapture env path = Ok cap;
  rv_count : cap_frame_count cap = Ok T;
  rv_seek : forall n, cap_set cap n = Ok tt;
  rv_read : forall i n, exists r, cap_read cap i n = Ok r;
  rv_cvt : forall a, exists b, cvtColor env a = Ok b;
  rv_pil : forall a, exists img, fromarray env a = Ok img;
  rv_resize : forall img sz, exists img', resize env img sz = Ok img'
}.
Arguments rv_open {env path cap T}.
Arguments rv_count {env path cap T}.
Arguments rv_seek {env path cap T}.
Arguments rv_read {env path cap T}.
Arguments rv_cvt {env path cap T}.
Arguments rv_pil {env path cap T}.
Arguments rv_resize {env path cap T}.

(** The read of iteration [i] after the seek to [n] decodes a frame. *)
Definition decodes (cap : Capture) (i n : Z) : bool :=
  match cap_read cap i n with
  | Ok (Some _) => true
  | _ => false
  end.

(** The model call of the analysis stage, made when a frame exists. *)
Definition analysis_call (frames : list Image) : trace :=
  match frames with
  | [] => []
  | frame :: _ => [EvGenerate analysis_prompt (Some frame)]
  end.

(** A capture on which the reads of the odd iterations decode nothing. *)
Definition flaky_capture (T : Z) : Capture :=
  {| cap_frame_count := Ok T;
     cap_set := fun _ => Ok tt;
     cap_read := fun i n =>
       if Z.odd i then Ok None else Ok (Some (NdArray (Z.to_N n))) |}.

End Spec2.
Import Spec2.

(* ===================================================================== *)
(** * The constructor and [save_metadata] *)
(* ===================================================================== *)

(** [json.dump(metadata, f, indent=2, ensure_ascii=False)] on a dictionary
    whose values are strings, lists of strings or [None]. *)
Module Json.

Definition BACKSLASH : char := 92%N.

Definition hex_digit (d : N) : char :=
  (if d <? 10 then 48 + d else 87 + d)%N.

(** The replacement of one character inside a string literal: the quote,
    the backslash and the characters below [0x20] are escaped, every other
    character is written as it is. *)
Definition escape_char (c : char) : str :=
  if (c =? DQUOTE)%N then [BACKSLASH; DQUOTE]
  else if (c =? BACKSLASH)%N then [BACKSLASH; BACKSLASH]
  else if (c =? 10)%N then BACKSLASH :: lit "n"
  else if (c =? 13)%N then BACKSLASH :: lit "r"
  else if (c =? 9)%N then BACKSLASH :: lit "t"
  else if (c =? 8)%N then BACKSLASH :: lit "b"
  else if (c =? 12)%N then BACKSLASH :: lit "f"
  else if (c <? 32)%N
       then BACKSLASH :: lit "u00" ++ [hex_digit (c / 16); hex_digit (c mod 16)]
       else [c].

Definition json_string (s : str) : str :=
  [DQUOTE] ++ flat_map escape_char s ++ [DQUOTE].






(** A left inverse of [escape_char], used to show that no two strings
    share a literal; [None] stands for text that is not a literal
    body. *)
Definition unhex (c : char) : option N :=
  (if (48 <=? c) && (c <=? 57) then Some (c - 48)
   else if (97 <=? c) && (c <=? 102) then Some (c - 87)
   else None)%N.

Fixpoint unescape (s : str) : option str :=
  match s with
  | [] => Some []
  | c :: rest =>
      if (c =? BACKSLASH)%N then
        match rest with
        | x :: rest' =>
            if (x =? 117)%N then
              match rest' with
              | a :: b :: h :: l :: rest'' =>
                  match unhex h, unhex l, unescape rest'' with
                  | Some hi, Some lo, Some r =>
                      if ((a =? 48) && (b =? 48))%N
                      then Some ((16 * hi + lo)%N :: r)
                      else None
                  | _, _, _ => None
                  end
              | _ => None
              end
            else
              match unescape rest' with
              | Some r =>
                  if (x =? DQUOTE)%N then Some (DQUOTE :: r)
                  else if (x =? BACKSLASH)%N then Some (BACKSLASH :: r)
                  else if (x =? 110)%N then Some (10%N :: r)
                  else if (x =? 114)%N then Some (13%N :: r)
                  else if (x =? 116)%N then Some (9%N :: r)
                  else if (x =? 98)%N then Some (8%N :: r)
                  else if (x =? 102)%N then Some (12%N :: r)
                  else None
              | None => None
              end
        | [] => None
        end
      else option_map (cons c) (unescape rest)
  end.

End Json.
Import Json.

(** The constructor reads the process environment and configures the
    client library; [save_metadata] writes a file.  Both run against a
    system that answers these calls, and record them. *)
Module Persistence.

Record System := {
  (** [os.getenv(name)] *)
  getenv : str -> option str;
  (** [open(path, 'w', encoding='utf-8')] *)
  open_for_write : str -> result unit;
  (** the writes of [json.dump] to the file opened at [path] *)
  write_text : str -> str -> result unit
}.

Inductive sys_event :=
| SysConfigure (api_key : str)
| SysModel (name : str)
| SysOpen (path : str)
| SysWrite (path text : str)
| SysClose (path : str)
| SysPrint (msg : str).

Definition IO (A : Type) : Type :=
  System -> list sys_event -> result A * list sys_event.

Definition sret {A} (a : A) : IO A := fun _ t => (Ok a, t).

Definition sraise {A} (e : exn) : IO A := fun _ t => (Raise e, t).

Definition sbind {A B} (m : IO A) (k : A -> IO B) : IO B :=
  fun sys t =>
    match m sys t with
    | (Ok a, t') => k a sys t'
    | (Raise e, t') => (Raise e, t')
    end.



Definition scall {A} (ev : sys_event) (answer : System -> result A) : IO A :=
  fun sys t => (answer sys, t ++ [ev]).


(** ** [__init__] *)

(** The truth value of an optional string: [None] and the empty string
    are false. *)
Definition truthy (o : option str) : bool :=
  match o with
  | Some (_ :: _) => true
  | _ => false
  end.

(** [a or b] *)
Definition py_or (a b : option str) : option str :=
  if truthy a then a else b.

Record Generator := {
  self_api_key : option str;
  self_model : str
}.

Definition GEMINI_API_KEY : str := lit "GEMINI_API_KEY".

Definition MODEL_NAME : str := lit "gemini-2.0-flash-exp".

Definition KEY_NOT_FOUND : str :=
  lit "Gemini API key not found. Please set GEMINI_API_KEY in .env file or pass it as parameter.".

Definition __init__ (api_key : option str) : IO Generator :=
  sbind (fun sys t => (Ok (getenv sys GEMINI_API_KEY), t)) (fun env_key =>
  let key := py_or api_key env_key in
  if negb (truthy key) then sraise (Exception KEY_NOT_FOUND)
  else
    sbind (scall (SysConfigure (match key with Some k => k | None => [] end))
                 (fun _ => Ok tt)) (fun _ =>
    sbind (scall (SysModel MODEL_NAME) (fun _ => Ok tt)) (fun _ =>
    sret {| self_api_key := key; self_model := MODEL_NAME |}))).

(** ** [save_metadata] *)


(** A system whose disk is full, and one that works; the key comes from
    the environment. *)
Definition env_with_key : str -> option str :=
  fun name => if PyStr.eqb name GEMINI_API_KEY
              then Some (lit "k-123") else None.

Definition working_system : System :=
  {| getenv := env_with_key;
     open_for_write := fun _ => Ok tt;
     write_text := fun _ _ => Ok tt |}.

Definition full_disk : System :=
  {| getenv := fun _ => None;
     open_for_write := fun _ => Ok tt;
     write_text := fun _ _ => Raise (Exception (lit "No space left on device")) |}.

End Persistence.
Import Persistence.

(* ===================================================================== *)
(** * The reel downloader of [downloader.py] *)
(* ===================================================================== *)

Module Downloader.

(** What a call can raise: [KeyboardInterrupt], which [except Exception]
    lets through, or an instance of [Exception]. *)
Inductive raised :=
| KeyboardInterrupt
| Error (e : exn).

Inductive outcome (A : Type) :=
| Return (a : A)
| Throw (r : raised).
Arguments Return {A} a.
Arguments Throw {A} r.

(** A node of a sidecar post. *)
Record Node := {
  is_video : bool;
  node_video_url : option str
}.

(** A post as [instaloader] presents it; the attributes that may fetch
    metadata can raise, and the sidecar nodes are produced one by one. *)
Record Post := {
  video_url : outcome (option str);
  typename : outcome str;
  get_sidecar_nodes : list (outcome Node);
  date_utc : N
}.

Record Web := {
  (** [urlparse(url).path] *)
  urlparse_path : str -> outcome str;
  (** [instaloader.Instaloader(...)] *)
  Instaloader : outcome unit;
  (** [instaloader.Post.from_shortcode(L.context, shortcode)] *)
  Post_from_shortcode : str -> outcome Post;
  (** [os.makedirs(dir, exist_ok=True)] *)
  os_makedirs : str -> outcome unit;
  (** [L.download_pic(filename=..., url=..., mtime=...)] *)
  download_pic : str -> str -> N -> outcome bool;
  (** [os.path.exists(path)], once the download is over *)
  os_path_exists : str -> bool;
  (** [os.listdir(dir)] *)
  os_listdir : str -> outcome (list str);
  (** [os.path.join(a, b)] of the platform *)
  os_path_join : str -> str -> str;
  (** [os.path.getsize(path)] *)
  os_path_getsize : str -> outcome Z;
  (** [input(prompt)] *)
  input : str -> outcome str;
  (** the text of [size / 1024 / 1024] in the format [.2f] *)
  format_megabytes : Z -> str
}.

Inductive net_event :=
| NetInstaloader
| NetPost (shortcode : str)
| NetMakedirs (dir : str)
| NetDownload (filename url : str) (mtime : N)
| NetListdir (dir : str)
| NetInput (prompt : str)
| NetPrint (msg : str).

Definition D (A : Type) : Type :=
  Web -> list net_event -> outcome A * list net_event.

Definition dret {A} (a : A) : D A := fun _ t => (Return a, t).

Definition dthrow {A} (r : raised) : D A := fun _ t => (Throw r, t).

(** [raise Exception(msg)] *)
Definition draise {A} (msg : str) : D A := dthrow (Error (Exception msg)).

Definition dbind {A B} (m : D A) (k : A -> D B) : D B :=
  fun web t =>
    match m web t with
    | (Return a, t') => k a web t'
    | (Throw r, t') => (Throw r, t')
    end.

(** [try: m except Exception as e: h e] *)
Definition dtry {A} (m : D A) (h : exn -> D A) : D A :=
  fun web t =>
    match m web t with
    | (Throw (Error e), t') => h e web t'
    | other => other
    end.

(** [try: m except KeyboardInterrupt: k except Exception as e: h e] *)
Definition dtry_interrupt {A} (m : D A) (k : D A) (h : exn -> D A) : D A :=
  fun web t =>
    match m web t with
    | (Throw KeyboardInterrupt, t') => k web t'
    | (Throw (Error e), t') => h e web t'
    | other => other
    end.

Definition dcall {A} (ev : net_event) (answer : Web -> outcome A) : D A :=
  fun web t => (answer web, t ++ [ev]).

(** An attribute or a query that leaves no record. *)
Definition dask {A} (answer : Web -> outcome A) : D A :=
  fun web t => (answer web, t).

Definition dprint (msg : str) : D unit :=
  dcall (NetPrint msg) (fun _ => Return tt).

(** ** [extract_shortcode] *)

Definition SLASH : char := 47%N.

Definition is_slash : char -> bool := N.eqb SLASH.

(** [s.lstrip(chars)], [s.rstrip(chars)] and [s.strip(chars)] for the
    characters that satisfy [p]. *)
Fixpoint lstrip_chars (p : char -> bool) (s : str) : str :=
  match s with
  | [] => []
  | c :: t => if p c then lstrip_chars p t else s
  end.

Fixpoint rstrip_chars (p : char -> bool) (s : str) : str :=
  match s with
  | [] => []
  | c :: t =>
      match rstrip_chars p t with
      | [] => if p c then [] else [c]
      | t' => c :: t'
      end
  end.

Definition strip_chars (p : char -> bool) (s : str) : str :=
  rstrip_chars p (lstrip_chars p s).

(** [[p for p in path.split("/") if p]] after [path.strip("/")] *)
Definition path_parts (path : str) : list str :=
  filter nonempty (split_on SLASH (strip_chars is_slash path)).

Definition is_post_kind (part : str) : bool :=
  PyStr.eqb part (lit "reel") || PyStr.eqb part (lit "p").

(** The choice among the parts: the second one behind [reel] or [p],
    else the last one, else the empty string. *)
Definition choose_shortcode (parts : list str) : str :=
  match parts with
  | kind :: code :: _ =>
      if is_post_kind kind then code else last parts []
  | _ => last parts []
  end.

Definition extract_shortcode (reel_url : str) : D str :=
  dbind (dask (fun web => urlparse_path web reel_url)) (fun path =>
  dret (choose_shortcode (path_parts path))).

(** ** [download_reel_with_audio] *)

(** [for node in post.get_sidecar_nodes(): if node.is_video: ... break] *)
Fixpoint first_video_url (nodes : list (outcome Node))
         (current : option str) : D (option str) :=
  match nodes with
  | [] => dret current
  | Throw r :: _ => dthrow r
  | Return node :: rest =>
      if is_video node then dret (node_video_url node)
      else first_video_url rest current
  end.

Definition GRAPH_SIDECAR : str := lit "GraphSidecar".
Definition NO_VIDEO_URL : str := lit "No video URL found for this post".
Definition FILE_NOT_FOUND : str :=
  lit "Download completed but file not found".
Definition FAILED_PREFIX : str := lit "Failed to download reel: ".
Definition DOWNLOADING : str := lit "Downloading video with audio...".

(** The search of the directory for a file of the reel. *)
Definition find_downloaded (dir filename_base target_path : str)
  : D str :=
  dbind (dask (fun web => Return (os_path_exists web target_path)))
        (fun found =>
  if found then dret target_path
  else
    dbind (dcall (NetListdir dir) (fun web => os_listdir web dir))
          (fun files =>
    match find (fun f => startswith f filename_base) files with
    | Some f => dbind (dask (fun web => Return (os_path_join web dir f)))
                      dret
    | None => dret target_path
    end)).

(** The statements of the [try] block. *)
Definition download_reel_try (reel_url download_dir : str) : D str :=
  dbind (dcall NetInstaloader Instaloader) (fun _ =>
  dbind (extract_shortcode reel_url) (fun shortcode =>
  dbind (dcall (NetPost shortcode)
               (fun web => Post_from_shortcode web shortcode)) (fun post =>
  dbind (dask (fun _ => video_url post)) (fun url =>
  dbind (if truthy url then dret url
         else
           dbind (dask (fun _ => typename post)) (fun kind =>
           if PyStr.eqb kind GRAPH_SIDECAR
           then first_video_url (get_sidecar_nodes post) url
           else dret url)) (fun url =>
  match url with
  | Some (c :: u) =>
      dbind (dcall (NetMakedirs download_dir)
                   (fun web => os_makedirs web download_dir)) (fun _ =>
      let filename_base := lit "reel_" ++ shortcode in
      dbind (dask (fun web =>
                     Return (os_path_join web download_dir filename_base)))
            (fun filepath_no_ext =>
      dbind (dprint DOWNLOADING) (fun _ =>
      dbind (dcall (NetDownload filepath_no_ext (c :: u) (date_utc post))
                   (fun web =>
                      download_pic web filepath_no_ext (c :: u)
                                   (date_utc post))) (fun _ =>
      dbind (find_downloaded download_dir filename_base
                             (filepath_no_ext ++ lit ".mp4"))
            (fun target_path =>
      dbind (dask (fun web => Return (os_path_exists web target_path)))
            (fun found =>
      if found then dret target_path else draise FILE_NOT_FOUND))))))
  | _ => draise NO_VIDEO_URL
  end))))).

Definition download_reel_with_audio (reel_url download_dir : str) : D str :=
  dtry (download_reel_try reel_url download_dir)
       (fun e => draise (FAILED_PREFIX ++ exn_msg e)).

Definition DEFAULT_DIR : str := lit "downloads".

(** ** [main] *)

Definition BANNER : str := lit "Instagram Reel Downloader with Audio".
Definition RULE : str := repeat 61%N 40.
Definition ASK_URL : str := lit "Enter Instagram reel URL: ".
Definition NO_URL : str := lit "No URL provided".
Definition STARTING : str := [10%N] ++ lit "Starting download...".
Definition SUCCESS : str :=
  [10%N] ++ [9989%N] ++ lit " Successfully downloaded with audio!".
Definition CANCELLED : str :=
  [10%N] ++ [10%N] ++ lit "Download cancelled by user".
Definition TIPS : str := [10%N] ++ lit "Tips:".
Definition TIP_URL : str := lit "- Make sure the URL is correct".
Definition TIP_PRIVATE : str :=
  lit "- If the reel is private, ensure you are logged in with valid credentials".

Definition main : D unit :=
  dbind (dprint BANNER) (fun _ =>
  dbind (dprint RULE) (fun _ =>
  dtry_interrupt
    (dbind (dcall (NetInput ASK_URL) (fun web => input web ASK_URL))
           (fun answer =>
     let reel_url := strip answer in
     match reel_url with
     | [] => dprint NO_URL
     | _ :: _ =>
         dbind (dprint STARTING) (fun _ =>
         dbind (download_reel_with_audio reel_url DEFAULT_DIR)
               (fun video_path =>
         dbind (dprint SUCCESS) (fun _ =>
         dbind (dprint ([128193%N] ++ lit " File location: " ++ video_path))
               (fun _ =>
         dbind (dask (fun web => os_path_getsize web video_path))
               (fun size =>
         dbind (dask (fun web => Return (format_megabytes web size)))
               (fun megabytes =>
         dprint ([128202%N] ++ lit " File size: " ++ megabytes
                   ++ lit " MB")))))))
     end))
    (dprint CANCELLED)
    (fun e =>
       dbind (dprint ([10%N] ++ [10060%N] ++ lit " Error: " ++ exn_msg e))
             (fun _ =>
       dbind (dprint TIPS) (fun _ =>
       dbind (dprint TIP_URL) (fun _ =>
       dprint TIP_PRIVATE)))))).

(** ** Example sites *)

Definition posix_join (a b : str) : str := a ++ [SLASH] ++ b.

(** A site that serves one post, whose files all exist after a
    download. *)
Definition site (post : Post) : Web :=
  {| urlparse_path := fun url => Return url;
     Instaloader := Return tt;
     Post_from_shortcode := fun _ => Return post;
     os_makedirs := fun _ => Return tt;
     download_pic := fun _ _ _ => Return true;
     os_path_exists := fun _ => true;
     os_listdir := fun _ => Return [];
     os_path_join := posix_join;
     os_path_getsize := fun _ => Return 1048576%Z;
     input := fun _ => Return (lit "  ");
     format_megabytes := fun _ => lit "1.00" |}.

Definition photo_post : Post :=
  {| video_url := Return None;
     typename := Return (lit "GraphImage");
     get_sidecar_nodes := [];
     date_utc := 0%N |}.

Definition reel_post : Post :=
  {| video_url := Return (Some (lit "https://cdn.example/v.mp4"));
     typename := Return (lit "GraphVideo");
     get_sidecar_nodes := [];
     date_utc := 0%N |}.

End Downloader.
Import Downloader.

(* ===================================================================== *)
(** * Lemmas on Python strings *)
(* ===================================================================== *)

Section StringLemmas.

Lemma startswith_cons_inv (s : str) (c : char) (p : str) :
  startswith s (c :: p) = true ->
  exists s', s = c :: s' /\ startswith s' p = true.
Proof.
  destruct s as [|b s']; simpl; [discriminate|].
  intros H. apply andb_true_iff in H as [Hc Hp].
  apply N.eqb_eq in Hc. subst b. now exists s'.
Qed.

Lemma rstrip_no_space (s : str) :
  Forall (fun c => isspace c = false) s -> rstrip s = s.
Proof.
  induction 1 as [|c s Hc _ IH]; simpl; [reflexivity|].
  rewrite IH. destruct s; [now rewrite Hc | reflexivity].
Qed.

Lemma strip_no_space (s : str) :
  Forall (fun c => isspace c = false) s -> strip s = s.
Proof.
  intros H. unfold strip.
  assert (lstrip s = s) as ->.
  { destruct H as [|c s Hc _]; simpl; [reflexivity | now rewrite Hc]. }
  now apply rstrip_no_space.
Qed.

Lemma lstrip_exists (p : char -> bool) (s : str) :
  (forall c, p c = true -> isspace c = false) ->
  existsb p s = true -> existsb p (lstrip s) = true.
Proof.
  intros Hp. induction s as [|c s IH]; simpl; [discriminate|].
  destruct (isspace c) eqn:Hc; simpl.
  - intros H. apply orb_true_iff in H as [H|H]; [|now apply IH].
    apply Hp in H. congruence.
  - trivial.
Qed.

Lemma rstrip_exists (p : char -> bool) (s : str) :
  (forall c, p c = true -> isspace c = false) ->
  existsb p s = true -> existsb p (rstrip s) = true.
Proof.
  intros Hp. induction s as [|c s IH]; simpl; [discriminate|].
  intros H. apply orb_true_iff in H as [H|H].
  - destruct (rstrip s); [rewrite (Hp _ H)|]; simpl; now rewrite H.
  - specialize (IH H). destruct (rstrip s) as [|d r]; [discriminate|].
    simpl in *. rewrite IH. apply orb_true_r.
Qed.

(** [strip] keeps every character that is not whitespace. *)
Lemma strip_exists (p : char -> bool) (s : str) :
  (forall c, p c = true -> isspace c = false) ->
  existsb p s = true -> existsb p (strip s) = true.
Proof.
  intros Hp H. unfold strip. now apply rstrip_exists, lstrip_exists.
Qed.

Lemma strip_nonempty (s : str) :
  existsb (fun c => negb (isspace c)) s = true -> strip s <> [].
Proof.
  intros H. apply (strip_exists (fun c => negb (isspace c))) in H.
  - destruct (strip s); [discriminate | discriminate].
  - intros c Hc. now apply negb_true_iff in Hc.
Qed.

(** Deleting the occurrences of a one-character string is a filter. *)
Lemma replace_char_filter (c : char) (s : str) :
  replace s [c] [] = filter (fun x => negb (c =? x)%N) s.
Proof.
  unfold replace. induction s as [|x s IH]; simpl; [reflexivity|].
  rewrite andb_true_r. destruct (c =? x)%N; simpl; now rewrite IH.
Qed.

Lemma filter_twice {A} (f g : A -> bool) (l : list A) :
  filter g (filter f l) = filter (fun x => f x && g x) l.
Proof.
  induction l as [|x l IH]; cbn [filter]; [reflexivity|].
  destruct (f x); cbn [filter andb]; [|assumption].
  destruct (g x); now rewrite IH.
Qed.

Lemma clean_title_filter (r : str) :
  clean_title r = filter (fun x => negb (is_quote x)) (strip r).
Proof.
  unfold clean_title. rewrite !replace_char_filter, filter_twice.
  apply filter_ext. intros x. unfold is_quote.
  rewrite (N.eqb_sym x DQUOTE), (N.eqb_sym x SQUOTE).
  now rewrite negb_orb.
Qed.

Lemma filter_nonempty_iff {A} (f : A -> bool) (l : list A) :
  filter f l <> [] <-> existsb f l = true.
Proof.
  induction l as [|x l IH]; simpl.
  - split; [congruence | discriminate].
  - destruct (f x); simpl; [|exact IH].
    split; [reflexivity | discriminate].
Qed.

Lemma rstrip_nonempty_inv (s : str) :
  rstrip s <> [] -> existsb not_space s = true.
Proof.
  induction s as [|c s IH]; simpl; [congruence|].
  destruct (rstrip s) as [|d r].
  - unfold not_space at 1. destruct (isspace c); [congruence | reflexivity].
  - intros _. rewrite IH by discriminate. apply orb_true_r.
Qed.

Lemma lstrip_exists_inv (p : char -> bool) (s : str) :
  existsb p (lstrip s) = true -> existsb p s = true.
Proof.
  induction s as [|c s IH]; simpl; [trivial|].
  destruct (isspace c); simpl; [|trivial].
  intros H. rewrite IH by assumption. apply orb_true_r.
Qed.

(** The trimmed text is empty exactly when the text is all whitespace. *)
Lemma strip_nonempty_iff (s : str) :
  strip s <> [] <-> existsb not_space s = true.
Proof.
  split.
  - unfold strip. intros H. now apply lstrip_exists_inv, rstrip_nonempty_inv.
  - apply strip_nonempty.
Qed.

(** The title is empty exactly when the trimmed text is all quotes. *)
Lemma clean_title_nonempty_iff (r : str) :
  clean_title r <> [] <-> existsb not_quote (strip r) = true.
Proof. rewrite clean_title_filter. apply filter_nonempty_iff. Qed.

(** ** Fields and tokens *)

(** A string with [k] separators has [k + 1] fields. *)
Lemma fields_length (sep : char -> bool) (s : str) :
  length (fields sep s) = S (length (filter sep s)).
Proof.
  induction s as [|c s IH]; simpl; [reflexivity|].
  destruct (sep c); simpl; [now rewrite IH|].
  destruct (fields sep s) as [|w ws] eqn:E; simpl in *; lia.
Qed.

Lemma fields_no_sep (sep : char -> bool) (s : str) :
  Forall (Forall (fun c => sep c = false)) (fields sep s).
Proof.
  induction s as [|c s IH]; simpl.
  - repeat constructor.
  - destruct (sep c) eqn:Hc.
    + constructor; [constructor | assumption].
    + destruct (fields sep s) as [|w ws]; [repeat constructor; assumption|].
      inversion IH; subst. constructor; [|assumption].
      now constructor.
Qed.

(** The tokens of [split()] contain no whitespace and are not empty. *)
Lemma split_token (s w : str) :
  In w (split s) ->
  w <> [] /\ Forall (fun c => isspace c = false) w.
Proof.
  unfold split. intros H. apply filter_In in H as [Hin Hne]. split.
  - destruct w; [discriminate | discriminate].
  - pose proof (fields_no_sep isspace s) as HF.
    rewrite Forall_forall in HF. now apply HF.
Qed.

Lemma strip_token (s w : str) : In w (split s) -> strip w = w.
Proof. intros H. apply strip_no_space. now apply split_token in H. Qed.

End StringLemmas.

(* ===================================================================== *)
(** * Lemmas on the scan of the description lines *)
(* ===================================================================== *)

Section ParserLemmas.

(** A line cannot carry both labels. *)
Lemma labels_exclusive (line : str) :
  startswith line KEYWORDS_LABEL = true ->
  startswith line HASHTAGS_LABEL = false.
Proof.
  intros H. apply startswith_cons_inv in H as [s' [-> _]]. reflexivity.
Qed.

Lemma scan_lines_app (pre post : list str) :
  scan_lines (pre ++ post) = fold_left scan_line post (scan_lines pre).
Proof. unfold scan_lines. now rewrite fold_left_app. Qed.

(** ** The loop invariant [tags == keywords[:15]] *)

Lemma scan_line_tags_follow (p : Parsed) (line : str) :
  tags_follow p -> tags_follow (scan_line p line).
Proof.
  unfold scan_line, tags_follow. intros H.
  destruct (startswith line HASHTAGS_LABEL); [exact H|].
  destruct (startswith line KEYWORDS_LABEL); [reflexivity | exact H].
Qed.

Lemma fold_scan_tags_follow (lines : list str) (p : Parsed) :
  tags_follow p -> tags_follow (fold_left scan_line lines p).
Proof.
  revert p. induction lines as [|line lines IH]; intros p H; simpl.
  - exact H.
  - apply IH. now apply scan_line_tags_follow.
Qed.

(** ** Lines without a label leave the corresponding list alone *)

Lemma fold_scan_no_keywords (lines : list str) (p : Parsed) :
  no_line_with KEYWORDS_LABEL lines ->
  keywords (fold_left scan_line lines p) = keywords p /\
  tags (fold_left scan_line lines p) = tags p.
Proof.
  intros H. revert p.
  induction H as [|line lines Hline _ IH]; intros p; simpl.
  - now split.
  - destruct (IH (scan_line p line)) as [-> ->].
    unfold scan_line. rewrite Hline.
    now destruct (startswith line HASHTAGS_LABEL).
Qed.

Lemma fold_scan_no_hashtags (lines : list str) (p : Parsed) :
  no_line_with HASHTAGS_LABEL lines ->
  hashtags (fold_left scan_line lines p) = hashtags p.
Proof.
  intros H. revert p.
  induction H as [|line lines Hline _ IH]; intros p; simpl.
  - reflexivity.
  - rewrite IH. unfold scan_line. rewrite Hline.
    now destruct (startswith line KEYWORDS_LABEL).
Qed.

(** ** The last labelled line decides *)

Lemma last_keywords_line (pre post : list str) (line : str) :
  startswith line KEYWORDS_LABEL = true ->
  no_line_with KEYWORDS_LABEL post ->
  keywords (scan_lines (pre ++ line :: post)) = keywords_of_line line /\
  tags (scan_lines (pre ++ line :: post))
    = slice_to 15 (keywords_of_line line).
Proof.
  intros Hline Hpost. rewrite scan_lines_app. simpl.
  destruct (fold_scan_no_keywords post (scan_line (scan_lines pre) line) Hpost)
    as [-> ->].
  unfold scan_line.
  rewrite (labels_exclusive _ Hline), Hline. now split.
Qed.

Lemma last_hashtags_line (pre post : list str) (line : str) :
  startswith line HASHTAGS_LABEL = true ->
  no_line_with HASHTAGS_LABEL post ->
  hashtags (scan_lines (pre ++ line :: post)) = hashtags_of_line line.
Proof.
  intros Hline Hpost. rewrite scan_lines_app. simpl.
  rewrite (fold_scan_no_hashtags post _ Hpost).
  unfold scan_line. now rewrite Hline.
Qed.

(** ** Hashtag tokens *)

(** The [strip] applied to each retained token changes nothing. *)
Lemma hashtags_of_line_filter (line : str) :
  hashtags_of_line line
  = filter is_marker (split (strip (replace line HASHTAGS_LABEL []))).
Proof.
  unfold hashtags_of_line.
  etransitivity; [|apply map_id].
  apply map_ext_in. intros w Hw.
  apply filter_In in Hw as [Hw _]. now apply strip_token in Hw.
Qed.

Lemma hashtags_of_line_marked (line : str) :
  Forall (fun tag => is_marker tag = true) (hashtags_of_line line).
Proof.
  rewrite hashtags_of_line_filter. apply Forall_forall.
  intros w Hw. now apply filter_In in Hw.
Qed.

Lemma fold_scan_all_marked (lines : list str) (p : Parsed) :
  all_marked p -> all_marked (fold_left scan_line lines p).
Proof.
  revert p. induction lines as [|line lines IH]; intros p H; simpl.
  - exact H.
  - apply IH. unfold scan_line, all_marked.
    destruct (startswith line HASHTAGS_LABEL).
    + apply hashtags_of_line_marked.
    + now destruct (startswith line KEYWORDS_LABEL).
Qed.

(** The hashtags come from one labelled line of the document, or there
    are none. *)
Lemma fold_scan_hashtags_source (lines : list str) (p : Parsed) :
  hashtags (fold_left scan_line lines p) = hashtags p \/
  exists line, In line lines /\
               startswith line HASHTAGS_LABEL = true /\
               hashtags (fold_left scan_line lines p)
               = hashtags_of_line line.
Proof.
  revert p. induction lines as [|line lines IH]; intros p; simpl.
  - now left.
  - destruct (IH (scan_line p line)) as [E | [l [Hin [Hl E]]]].
    + rewrite E. unfold scan_line.
      destruct (startswith line HASHTAGS_LABEL) eqn:Hline.
      * right. exists line. auto.
      * left. now destruct (startswith line KEYWORDS_LABEL).
    + right. exists l. auto.
Qed.

(** ** Keyword segments *)

Lemma keywords_of_line_length (line : str) :
  length (keywords_of_line line)
  = S (length (filter (N.eqb COMMA)
                      (strip (replace line KEYWORDS_LABEL [])))).
Proof.
  unfold keywords_of_line, split_on.
  now rewrite length_map, fields_length.
Qed.

End ParserLemmas.

(* ===================================================================== *)
(** * Lemmas on true division *)
(* ===================================================================== *)

Section DivisionLemmas.
Local Open Scope Z_scope.

Lemma round_half_even_cases (num den : Z) :
  round_half_even num den = num / den \/
  (round_half_even num den = num / den + 1 /\ den <= 2 * (num mod den)).
Proof.
  unfold round_half_even.
  destruct (Z.compare_spec (2 * (num mod den)) den) as [E|L|G].
  - destruct (Z.even (num / den)); [now left | right; lia].
  - now left.
  - right. lia.
Qed.

(** The exponent found by [quot_exponent] is not above the quotient:
    [2 ^ e <= a / b], written without division. *)
Lemma quot_exponent_lower (a b : Z) :
  0 < a -> 0 < b ->
  let e := quot_exponent a b in
  b * 2 ^ Z.max e 0 <= a * 2 ^ Z.max (- e) 0.
Proof.
  intros Ha Hb. unfold quot_exponent.
  set (e0 := Z.log2 a - Z.log2 b).
  destruct (Z.leb_spec (b * 2 ^ Z.max e0 0) (a * 2 ^ Z.max (- e0) 0))
    as [Hle|Hgt]; cbv zeta; [exact Hle|].
  destruct (Z.log2_spec a Ha) as [Ha1 _].
  destruct (Z.log2_spec b Hb) as [_ Hb2].
  pose proof (Z.log2_nonneg a) as Hla.
  pose proof (Z.log2_nonneg b) as Hlb.
  destruct (Z_le_gt_dec 1 e0) as [Hpos|Hneg].
  - rewrite (Z.max_l (e0 - 1) 0), (Z.max_r (- (e0 - 1)) 0) by lia.
    rewrite Z.pow_0_r, Z.mul_1_r.
    assert (2 ^ Z.succ (Z.log2 b) * 2 ^ (e0 - 1) = 2 ^ Z.log2 a) as E.
    { rewrite <- Z.pow_add_r by lia. f_equal. unfold e0. lia. }
    assert (0 < 2 ^ (e0 - 1)) by (apply Z.pow_pos_nonneg; lia).
    nia.
  - rewrite (Z.max_r (e0 - 1) 0), (Z.max_l (- (e0 - 1)) 0) by lia.
    rewrite Z.pow_0_r, Z.mul_1_r.
    assert (2 ^ Z.log2 a * 2 ^ (- (e0 - 1)) = 2 ^ Z.succ (Z.log2 b)) as E.
    { rewrite <- Z.pow_add_r by lia. f_equal. unfold e0. lia. }
    assert (0 < 2 ^ (- (e0 - 1))) by (apply Z.pow_pos_nonneg; lia).
    nia.
Qed.

Lemma quot_exponent_upper (a b : Z) :
  0 < a -> 0 < b -> quot_exponent a b <= Z.log2 a.
Proof.
  intros Ha Hb. unfold quot_exponent.
  pose proof (Z.log2_nonneg b).
  destruct (_ <=? _); lia.
Qed.

(** Rounding the scaled quotient to 53 bits never reaches the next
    integer when the divisor is below [2 * P]. *)
Lemma rounded_quotient_floor (a b P : Z) :
  0 <= a -> 0 < b -> 0 < P -> b < 2 * P ->
  round_half_even (a * P) b / P = a / b.
Proof.
  intros Ha Hb HP HbP.
  pose proof (Z.div_mod a b ltac:(lia)) as Ea.
  pose proof (Z.mod_pos_bound a b Hb) as Ra.
  pose proof (Z.div_mod (a * P) b ltac:(lia)) as Em.
  pose proof (Z.mod_pos_bound (a * P) b Hb) as Rm.
  set (k := a / b) in *. set (ra := a mod b) in *.
  set (q := a * P / b) in *. set (r := (a * P) mod b) in *.
  assert (k * P <= q) as Hlow.
  { apply Z.div_le_lower_bound; [lia | nia]. }
  assert (q < (k + 1) * P) as Hq.
  { apply Z.div_lt_upper_bound; [lia | nia]. }
  assert (round_half_even (a * P) b < (k + 1) * P) as Hup.
  { destruct (round_half_even_cases (a * P) b) as [-> | [-> Hr]];
      [exact Hq|].
    fold q. fold r in Hr.
    destruct (Z_lt_le_dec (q + 1) ((k + 1) * P)) as [|Hge]; [assumption|].
    exfalso.
    assert (q = (k + 1) * P - 1) as Eq by lia.
    assert (r = (ra - b) * P + b) as Er by (subst q; nia).
    nia. }
  assert (k * P <= round_half_even (a * P) b) as Hlow'.
  { destruct (round_half_even_cases (a * P) b) as [-> | [-> _]];
      fold q; lia. }
  symmetry.
  apply (Z.div_unique _ P k (round_half_even (a * P) b - k * P)); lia.
Qed.

(** Below [2 ^ 53] the binary64 quotient truncates to the floor of the
    exact one. *)
Lemma int_truediv_exact (a b : Z) :
  0 <= a < 2 ^ 53 -> 0 < b -> int_truediv a b = Some (a / b).
Proof.
  intros [Ha0 Ha] Hb. unfold int_truediv.
  rewrite (proj2 (Z.eqb_neq b 0)) by lia.
  destruct (Z.eqb_spec a 0) as [->|Hnz]; [now rewrite Z.div_0_l by lia|].
  assert (0 < a) as Hap by lia.
  rewrite (Z.abs_eq a), (Z.abs_eq b) by lia.
  rewrite (Z.sgn_pos a), (Z.sgn_pos b) by lia.
  unfold int_truediv_pos.
  pose proof (quot_exponent_lower a b Hap Hb) as Hlow. cbv zeta in Hlow.
  pose proof (quot_exponent_upper a b Hap Hb) as Hupp.
  assert (Z.log2 a < 53) as Hla by (apply Z.log2_lt_pow2; lia).
  set (e := quot_exponent a b) in *.
  assert (0 <= 52 - e) as Hs by lia.
  rewrite (Z.max_l (52 - e) 0), (Z.max_r (- (52 - e)) 0) by lia.
  rewrite Z.pow_0_r, !Z.mul_1_r.
  assert (0 < 2 ^ (52 - e)) as HP by (apply Z.pow_pos_nonneg; lia).
  assert (b < 2 * 2 ^ (52 - e)) as HbP.
  { destruct (Z_le_gt_dec 0 e) as [He|He].
    - rewrite (Z.max_l e 0), (Z.max_r (- e) 0), Z.pow_0_r in Hlow by lia.
      assert (2 ^ 53 = 2 * 2 ^ (52 - e) * 2 ^ e) as E.
      { rewrite <- Z.mul_assoc, <- Z.pow_add_r, <- Z.pow_succ_r by lia.
        f_equal. lia. }
      assert (0 < 2 ^ e) by (apply Z.pow_pos_nonneg; lia).
      nia.
    - rewrite (Z.max_r e 0), (Z.max_l (- e) 0), Z.pow_0_r in Hlow by lia.
      assert (2 * 2 ^ (52 - e) = 2 ^ 53 * 2 ^ (- e)) as E.
      { rewrite <- Z.pow_add_r, <- Z.pow_succ_r by lia. f_equal. lia. }
      assert (0 < 2 ^ (- e)) by (apply Z.pow_pos_nonneg; lia).
      nia. }
  replace (1023 <? e) with false by (symmetry; apply Z.ltb_ge; lia).
  replace (e =? 1023) with false by (symmetry; apply Z.eqb_neq; lia).
  cbn [orb andb option_map].
  rewrite (rounded_quotient_floor a b _ Ha0 Hb HP HbP). f_equal. lia.
Qed.

Lemma range_length (n : Z) : length (range n) = Z.to_nat n.
Proof. unfold range. now rewrite length_map, length_seq. Qed.

Lemma range_bounds (n i : Z) : In i (range n) -> 0 <= i < n.
Proof.
  unfold range. intros H. apply in_map_iff in H as [k [<- Hk]].
  apply in_seq in Hk. lia.
Qed.

End DivisionLemmas.

(* ===================================================================== *)
(** * Lemmas on the stages *)
(* ===================================================================== *)

Section EffectLemmas.
Local Open Scope py_scope.

Lemma model_calls_app (t d : trace) :
  model_calls (t ++ d) = (model_calls t + model_calls d)%nat.
Proof. unfold model_calls. now rewrite filter_app, length_app. Qed.

Lemma model_calls_snoc (t : trace) (ev : event) :
  is_generate ev = false -> model_calls (t ++ [ev]) = model_calls t.
Proof.
  intros H. rewrite model_calls_app. unfold model_calls at 2. simpl.
  rewrite H. simpl. lia.
Qed.

(** ** Computations that record no event of a given kind *)

Section Avoids.
Variable p : event -> bool.

Lemma avoids_ret {A} (a : A) : avoids p (ret a).
Proof. intros env t. reflexivity. Qed.

Lemma avoids_raise {A} (e : exn) : avoids p (@raise A e).
Proof. intros env t. reflexivity. Qed.

Lemma avoids_bind {A B} (m : M A) (k : A -> M B) :
  avoids p m -> (forall a, avoids p (k a)) -> avoids p (bind m k).
Proof.
  intros Hm Hk env t. unfold bind. specialize (Hm env t).
  destruct (m env t) as [[a|e] t1]; simpl in *.
  - now rewrite Hk.
  - exact Hm.
Qed.

Lemma avoids_try {A} (m : M A) (h : exn -> M A) :
  avoids p m -> (forall e, avoids p (h e)) -> avoids p (try_except m h).
Proof.
  intros Hm Hh env t. unfold try_except. specialize (Hm env t).
  destruct (m env t) as [[a|e] t1]; simpl in *.
  - exact Hm.
  - now rewrite Hh.
Qed.

Lemma avoids_call {A} (ev : event) (answer : Env -> result A) :
  p ev = false -> avoids p (call ev answer).
Proof.
  intros H env t. simpl. rewrite filter_app. simpl. rewrite H.
  apply app_nil_r.
Qed.

Lemma avoids_for_each {A S} (xs : list A) (body : A -> S -> M S) (s : S) :
  (forall x s', avoids p (body x s')) -> avoids p (for_each xs body s).
Proof.
  intros Hb. revert s. induction xs as [|x xs IH]; intros s; simpl.
  - apply avoids_ret.
  - apply avoids_bind; [apply Hb | exact IH].
Qed.

Lemma avoids_int_div (a b : Z) : avoids p (int_div a b).
Proof.
  unfold int_div. destruct (int_truediv a b); [apply avoids_ret|].
  destruct (b =? 0)%Z; apply avoids_raise.
Qed.

Lemma avoids_cvtColor frame : avoids p (cv2_cvtColor frame).
Proof. intros env t. reflexivity. Qed.

Lemma avoids_fromarray a : avoids p (Image_fromarray a).
Proof. intros env t. reflexivity. Qed.

Lemma avoids_resize img size : avoids p (Image_resize img size).
Proof. intros env t. reflexivity. Qed.

End Avoids.

Create HintDb avoids.
#[local] Hint Resolve avoids_ret avoids_raise avoids_int_div
  avoids_cvtColor avoids_fromarray avoids_resize : avoids.
#[local] Hint Extern 1 (avoids _ (call _ _)) =>
  (apply avoids_call; reflexivity) : avoids.
#[local] Hint Extern 1 (avoids _ (cap_set_pos _ _)) =>
  (apply avoids_call; reflexivity) : avoids.
#[local] Hint Extern 1 (avoids _ (cap_read_frame _ _ _)) =>
  (apply avoids_call; reflexivity) : avoids.
#[local] Hint Extern 1 (avoids _ (cv2_VideoCapture _)) =>
  (apply avoids_call; reflexivity) : avoids.
#[local] Hint Extern 1 (avoids _ (cap_get_frame_count _)) =>
  (apply avoids_call; reflexivity) : avoids.
#[local] Hint Extern 1 (avoids _ (cap_release _)) =>
  (apply avoids_call; reflexivity) : avoids.
#[local] Hint Extern 1 (avoids _ (print _)) =>
  (apply avoids_call; reflexivity) : avoids.

(** Splits a sequence of statements into its calls. *)
Ltac avoids_steps :=
  repeat first
    [ apply avoids_bind; [auto with avoids | intros ?]
    | apply avoids_for_each; intros ? ?
    | progress auto with avoids ].

(** The seek and the read are the only events of an iteration. *)
Lemma avoids_sample_frame p cap T N i frames :
  p EvCapRead = false -> (forall n, p (EvCapSet n) = false) ->
  avoids p (sample_frame cap T N i frames).
Proof.
  intros Hread Hset. unfold sample_frame.
  apply avoids_bind; [auto with avoids | intros n].
  apply avoids_bind; [now apply avoids_call | intros _].
  apply avoids_bind; [now apply avoids_call | intros [frame|]];
    avoids_steps.
Qed.

(** The frame sampler never calls the model. *)
Lemma extract_video_frames_avoids_model path N :
  avoids is_generate (extract_video_frames path N).
Proof.
  unfold extract_video_frames, extract_video_frames_try.
  apply avoids_try.
  - apply avoids_bind; [auto with avoids | intros cap].
    apply avoids_bind; [auto with avoids | intros T].
    apply avoids_bind; [|intros frames; avoids_steps].
    apply avoids_for_each. intros i frames.
    now apply avoids_sample_frame.
  - intros e. avoids_steps.
Qed.

Lemma extract_video_frames_keeps_model_calls path N env t :
  model_calls (snd (extract_video_frames path N env t)) = model_calls t.
Proof.
  unfold model_calls. now rewrite extract_video_frames_avoids_model.
Qed.

(** ** The release of the capture *)

(** A normal end of the [try] block goes through the release. *)
Lemma try_block_returns_after_release path N env t frames t' :
  extract_video_frames_try path N env t = (Ok frames, t') ->
  exists t0, t' = t0 ++ [EvCapRelease].
Proof.
  unfold extract_video_frames_try, bind, cv2_VideoCapture,
    cap_get_frame_count, cap_release, call, ret.
  destruct (VideoCapture env path) as [cap|e]; [|discriminate].
  destruct (cap_frame_count cap) as [T|e]; [|discriminate].
  destruct (for_each _ _ _ env _) as [[fs|e] t1]; [|discriminate].
  intros H. injection H as _ <-. now exists t1.
Qed.

(** An exception inside the [try] block leaves it before the release:
    the events recorded up to then hold no release. *)
Lemma try_block_raises_before_release path N env t e t' :
  extract_video_frames_try path N env t = (Raise e, t') ->
  filter is_release t' = filter is_release t.
Proof.
  unfold extract_video_frames_try, bind, cv2_VideoCapture,
    cap_get_frame_count, cap_release, call, ret.
  destruct (VideoCapture env path) as [cap|e0].
  2:{ intros H. injection H as _ <-. rewrite filter_app. apply app_nil_r. }
  destruct (cap_frame_count cap) as [T|e0].
  2:{ intros H. injection H as _ <-. rewrite !filter_app. simpl.
      now rewrite !app_nil_r. }
  assert (avoids is_release
            (for_each (range N) (sample_frame cap T N) [])) as Hloop.
  { apply avoids_for_each. intros i frames.
    now apply avoids_sample_frame. }
  specialize (Hloop env ((t ++ [EvCapOpen path]) ++ [EvCapGet])).
  destruct (for_each _ _ _ env _) as [[fs|e0] t1]; [discriminate|].
  intros H. injection H as _ <-. simpl in Hloop. rewrite Hloop.
  rewrite !filter_app. simpl. now rewrite !app_nil_r.
Qed.

(** The [except] branch prints and returns: the capture opened in the
    [try] block stays without a release. *)
Lemma exception_skips_release path N env t e t' :
  extract_video_frames_try path N env t = (Raise e, t') ->
  extract_video_frames path N env t
  = (Ok [], t' ++ [EvPrint (lit "Error extracting frames: " ++ exn_msg e)])
  /\ filter is_release (snd (extract_video_frames path N env t))
     = filter is_release t.
Proof.
  intros H. pose proof (try_block_raises_before_release _ _ _ _ _ _ H) as Hr.
  unfold extract_video_frames, try_except. rewrite H. split; [reflexivity|].
  simpl. rewrite filter_app. simpl. now rewrite app_nil_r.
Qed.

(** ** Stages that recover from every exception *)

Lemma try_never_raises {A} (m : M A) (h : exn -> M A) :
  (forall e, never_raises (h e)) -> never_raises (try_except m h).
Proof.
  intros Hh env t. unfold try_except.
  destruct (m env t) as [[a|e] t1]; [eauto | apply Hh].
Qed.

Lemma print_then_ret_never_raises {A} (msg : str) (a : A) :
  never_raises (print msg ;;; ret a).
Proof. intros env t. eexists _, _. reflexivity. Qed.

Lemma extract_video_frames_never_raises path N :
  never_raises (extract_video_frames path N).
Proof.
  apply try_never_raises. intros e. apply print_then_ret_never_raises.
Qed.

Lemma analyze_video_content_never_raises path :
  never_raises (analyze_video_content path).
Proof.
  apply try_never_raises. intros e. apply print_then_ret_never_raises.
Qed.

(** ** What each model stage returns *)

Lemma generate_title_eq (analysis : str) (env : Env) (t : trace) :
  let prompt := title_prompt analysis in
  generate_title analysis env t =
  match generate_content env (model_calls t) prompt None with
  | Ok text => (Ok (clean_title text), t ++ [EvGenerate prompt None])
  | Raise e =>
      (Ok FALLBACK_TITLE,
       (t ++ [EvGenerate prompt None])
         ++ [EvPrint (lit "Error generating title: " ++ exn_msg e)])
  end.
Proof.
  cbv zeta.
  unfold generate_title, try_except, bind, model_generate, ret, print, call.
  now destruct (generate_content env _ _ _).
Qed.

Lemma generate_description_eq (analysis : str) (env : Env) (t : trace) :
  let prompt := description_prompt analysis in
  generate_description analysis env t =
  match generate_content env (model_calls t) prompt None with
  | Ok text => (Ok (strip text), t ++ [EvGenerate prompt None])
  | Raise e =>
      (Ok _fallback_description,
       (t ++ [EvGenerate prompt None])
         ++ [EvPrint (lit "Error generating description: " ++ exn_msg e)])
  end.
Proof.
  cbv zeta.
  unfold generate_description, try_except, bind, model_generate, ret,
    print, call.
  now destruct (generate_content env _ _ _).
Qed.

Lemma analyze_video_content_eq (path : str) (env : Env) (t t1 : trace)
      (frames : list Image) :
  extract_video_frames path 2 env t = (Ok frames, t1) ->
  analyze_video_content path env t =
  match frames with
  | [] => (Ok UNABLE_TO_ANALYZE, t1)
  | frame :: _ =>
      match generate_content env (model_calls t1) analysis_prompt
                             (Some frame) with
      | Ok text =>
          (Ok (strip text), t1 ++ [EvGenerate analysis_prompt (Some frame)])
      | Raise e =>
          (Ok ANALYSIS_UNAVAILABLE,
           (t1 ++ [EvGenerate analysis_prompt (Some frame)])
             ++ [EvPrint (lit "Error analyzing video content: "
                            ++ exn_msg e)])
      end
  end.
Proof.
  intros H.
  unfold analyze_video_content, try_except, bind. rewrite H.
  destruct frames as [|frame rest]; [reflexivity|].
  unfold model_generate, ret, print, call.
  now destruct (generate_content env _ _ _).
Qed.

End EffectLemmas.

(* ===================================================================== *)
(** * The sampling loop on a healthy video *)
(* ===================================================================== *)

Section SamplingLoop.
Local Open Scope Z_scope.

Variables (env : Env) (path : str) (cap : Capture) (T N : Z).
Hypothesis healthy : healthy_video env path cap T.

(** [pos i] is the position that iteration [i] computes. *)
Variable pos : Z -> Z.

Lemma sample_frame_healthy (i : Z) (frames : list Image) (t : trace) :
  int_truediv ((i + 1) * T) (N + 1) = Some (pos i) ->
  exists img,
    sample_frame cap T N i frames env t
    = (Ok (frames ++ [img]), t ++ seek_and_read (pos i)) /\
    sampled_at env cap i (pos i) img.
Proof.
  intros Hdiv.
  destruct (hv_read healthy i (pos i)) as [frame Hread].
  destruct (hv_cvt healthy frame) as [rgb Hrgb].
  destruct (hv_pil healthy rgb) as [pil Hpil].
  destruct (hv_resize healthy pil (512, 512)) as [img Himg].
  exists img. split; [|now exists frame, rgb, pil].
  unfold sample_frame, int_div, bind, ret, cap_set_pos, cap_read_frame,
    call, cv2_cvtColor, Image_fromarray, Image_resize.
  rewrite Hdiv. cbn [ret]. unfold ret.
  rewrite (hv_seek healthy), Hread, Hrgb, Hpil, Himg.
  unfold seek_and_read. now rewrite <- app_assoc.
Qed.

Lemma for_each_sample_healthy (idxs : list Z) :
  computes_positions T N pos idxs ->
  forall (frames : list Image) (t : trace),
  exists imgs,
    for_each idxs (sample_frame cap T N) frames env t
    = (Ok (frames ++ imgs),
       t ++ flat_map (fun i => seek_and_read (pos i)) idxs) /\
    Forall2 (fun i img => sampled_at env cap i (pos i) img) idxs imgs.
Proof.
  induction idxs as [|i idxs IH]; intros Hpos frames t.
  - exists []. simpl. unfold ret. rewrite !app_nil_r. now split.
  - assert (computes_positions T N pos idxs) as Hrest.
    { intros j Hj. apply Hpos. now right. }
    destruct (sample_frame_healthy i frames t (Hpos i (or_introl eq_refl)))
      as [img [Hstep Himg]].
    destruct (IH Hrest (frames ++ [img]) (t ++ seek_and_read (pos i)))
      as [imgs [Hloop Himgs]].
    exists (img :: imgs). split; [|now constructor].
    cbn [for_each flat_map]. unfold bind at 1. rewrite Hstep, Hloop.
    now rewrite <- !app_assoc.
Qed.

Lemma extract_video_frames_healthy (t : trace) :
  computes_positions T N pos (range N) ->
  exists frames,
    extract_video_frames path N env t
    = (Ok frames,
       t ++ [EvCapOpen path; EvCapGet]
         ++ flat_map (fun i => seek_and_read (pos i)) (range N)
         ++ [EvCapRelease]) /\
    Forall2 (fun i img => sampled_at env cap i (pos i) img)
            (range N) frames.
Proof.
  intros Hpos.
  destruct (for_each_sample_healthy _ Hpos []
              ((t ++ [EvCapOpen path]) ++ [EvCapGet]))
    as [frames [Hloop Hframes]].
  exists frames. split; [|exact Hframes].
  unfold extract_video_frames, extract_video_frames_try, try_except, bind,
    cv2_VideoCapture, cap_get_frame_count, cap_release, call.
  rewrite (hv_open healthy), (hv_count healthy), Hloop.
  unfold ret. cbn [app]. f_equal.
  rewrite <- !app_assoc. reflexivity.
Qed.

End SamplingLoop.

(* ===================================================================== *)
(** * The assembled record: tags, keywords and hashtags *)
(* ===================================================================== *)

(** C2: for every description document the assembled lists satisfy
    [tags == keywords[:15]]; hence [tags] has at most 15 entries and is a
    prefix of [keywords]; when no line starts with the label [Keywords:]
    both lists are empty.  The record built from the parse carries exactly
    these lists under the keys [tags] and [keywords]. *)
Theorem C2_tags_are_first_15_keywords (description : str) :
  let p := parse_description description in
  tags p = slice_to 15 (keywords p) /\
  length (tags p) <= 15 /\
  (exists rest, keywords p = tags p ++ rest) /\
  (no_line_with KEYWORDS_LABEL (split_on LF description) ->
   keywords p = [] /\ tags p = []) /\
  (forall analysis title generated_at,
     let md := metadata_dict analysis title description p generated_at in
     dict_get md (lit "keywords") = Some (PList (keywords p)) /\
     dict_get md (lit "tags") = Some (PList (slice_to 15 (keywords p)))).
Proof.
  intros p.
  assert (tags_follow p) as Hinv.
  { unfold p, parse_description, scan_lines.
    apply fold_scan_tags_follow. reflexivity. }
  unfold tags_follow in Hinv.
  split; [exact Hinv|]. split; [|split; [|split]].
  - rewrite Hinv. unfold slice_to. apply firstn_le_length.
  - exists (skipn 15 (keywords p)). rewrite Hinv. unfold slice_to.
    symmetry. apply firstn_skipn.
  - intros Hnone. unfold p, parse_description, scan_lines.
    apply (fold_scan_no_keywords
             _ {| hashtags := []; keywords := []; tags := [] |} Hnone).
  - intros analysis title generated_at md.
    split; [reflexivity|]. rewrite <- Hinv. reflexivity.
Qed.

(** C4: the scan of the fallback description yields the 20 keywords and
    the 30 hashtags that its text spells out, among them [#shorts],
    [#viral] and [#trending]. *)
Theorem C4_fallback_description_parses :
  let p := parse_description _fallback_description in
  keywords p
  = map lit [ "viral video"; "trending content"; "amazing moments";
              "entertainment"; "social media"; "short video";
              "funny clips"; "must watch"; "incredible"; "awesome";
              "cool stuff"; "viral clips"; "trending now";
              "popular video"; "engaging content"; "shareable";
              "entertaining"; "video content"; "social sharing";
              "watch now" ]%string /\
  length (keywords p) = 20 /\
  hashtags p
  = map lit [ "#shorts"; "#viral"; "#trending"; "#amazing";
              "#entertainment"; "#video"; "#content"; "#socialmedia";
              "#funny"; "#cool"; "#awesome"; "#mustwatch"; "#incredible";
              "#popular"; "#engaging"; "#shareable"; "#entertaining";
              "#videooftheday"; "#trend"; "#viral2024"; "#shortsvideo";
              "#viralshorts"; "#trendingshorts"; "#amazingvideo";
              "#viralcontent"; "#shortsfeed"; "#explore"; "#fyp";
              "#foryou"; "#viralmoment" ]%string /\
  length (hashtags p) = 30.
Proof. vm_compute. repeat split. Qed.

(** C5: every element of the parsed hashtags starts with the marker
    character, so no string without the marker is in the list.  The list
    is empty or comes from one line of the document that starts with the
    label [Hashtags:], and the list taken from such a line is exactly the
    sequence of the whitespace-separated tokens of its remainder that
    start with the marker: a token without the marker is left out. *)
Theorem C5_hashtags_start_with_marker (description : str) :
  let p := parse_description description in
  Forall (fun tag => startswith tag [HASH] = true) (hashtags p) /\
  (forall token, startswith token [HASH] = false -> ~ In token (hashtags p)) /\
  (hashtags p = [] \/
   exists line, In line (split_on LF description) /\
                startswith line HASHTAGS_LABEL = true /\
                hashtags p = hashtags_of_line line) /\
  (forall line,
     let tokens := split (strip (replace line HASHTAGS_LABEL [])) in
     hashtags_of_line line
     = filter (fun token => startswith token [HASH]) tokens /\
     (forall token, In token tokens -> startswith token [HASH] = false ->
                    ~ In token (hashtags_of_line line))).
Proof.
  intros p.
  assert (all_marked p) as Hall.
  { unfold p, parse_description, scan_lines.
    apply fold_scan_all_marked. constructor. }
  unfold all_marked, is_marker in Hall. split; [exact Hall|].
  split; [|split].
  - intros token Htok Hin. rewrite Forall_forall in Hall.
    apply Hall in Hin. congruence.
  - unfold p, parse_description, scan_lines.
    apply fold_scan_hashtags_source.
  - intros line tokens. split; [apply hashtags_of_line_filter|].
    intros token _ Htok Hin.
    pose proof (hashtags_of_line_marked line) as Hm.
    rewrite Forall_forall in Hm. apply Hm in Hin.
    unfold is_marker in Hin. congruence.
Qed.

(** C9: the keywords taken from a [Keywords:] line are all the
    comma-separated segments of its remainder, trimmed and never
    filtered: a remainder with [k] commas gives [k + 1] keywords, a
    segment of whitespace only gives the empty keyword, and an empty
    remainder gives one empty keyword, which is then also the single
    tag. *)
Theorem C9_empty_keywords_are_kept
        (description : str) (pre post : list str) (line : str)
        (Hlines : split_on LF description = pre ++ line :: post)
        (Hline : startswith line KEYWORDS_LABEL = true)
        (Hpost : no_line_with KEYWORDS_LABEL post) :
  let p := parse_description description in
  let remainder := strip (replace line KEYWORDS_LABEL []) in
  keywords p = map strip (split_on COMMA remainder) /\
  length (keywords p) = S (length (filter (N.eqb COMMA) remainder)) /\
  (forall segment, In segment (split_on COMMA remainder) ->
                   strip segment = [] -> In [] (keywords p)) /\
  (remainder = [] -> keywords p = [[]] /\ tags p = [[]]).
Proof.
  intros p remainder.
  destruct (last_keywords_line pre post line Hline Hpost) as [Hk Ht].
  unfold p, parse_description. rewrite Hlines, Hk, Ht.
  unfold keywords_of_line. fold remainder.
  split; [reflexivity|]. split; [|split].
  - fold (keywords_of_line line). apply keywords_of_line_length.
  - intros segment Hin Hempty. rewrite <- Hempty. now apply in_map.
  - intros ->. split; reflexivity.
Qed.

(** C10: when several lines of the document start with [Keywords:] (or
    with [Hashtags:]), the keywords and tags (or the hashtags) are those
    of the last such line alone. *)
Theorem C10_last_labelled_line_wins
        (description : str) (pre post : list str) (line : str)
        (Hlines : split_on LF description = pre ++ line :: post) :
  let p := parse_description description in
  (startswith line KEYWORDS_LABEL = true ->
   no_line_with KEYWORDS_LABEL post ->
   keywords p = keywords_of_line line /\
   tags p = slice_to 15 (keywords_of_line line)) /\
  (startswith line HASHTAGS_LABEL = true ->
   no_line_with HASHTAGS_LABEL post ->
   hashtags p = hashtags_of_line line).
Proof.
  intros p. unfold p, parse_description. rewrite Hlines. split.
  - intros Hline Hpost. now apply last_keywords_line.
  - intros Hline Hpost. now apply last_hashtags_line.
Qed.

(** The document [TWICE_LABELLED]: its last [Keywords:] line has the
    remainder [cat,, dog,], with three commas and four keywords, two of
    them empty. *)
Lemma C9_witness :
  let pre := [lit "Two cats."; lit "Keywords: old, stale";
              lit "Hashtags: #old"] in
  let line := lit "Keywords: cat,, dog," in
  let post := [lit "Hashtags: #cat dog #pets"; lit "The end."] in
  split_on LF TWICE_LABELLED = pre ++ line :: post /\
  startswith line KEYWORDS_LABEL = true /\
  no_line_with KEYWORDS_LABEL post /\
  keywords (parse_description TWICE_LABELLED)
  = [lit "cat"; []; lit "dog"; []] /\
  length (keywords (parse_description TWICE_LABELLED)) = 4 /\
  In [] (keywords (parse_description TWICE_LABELLED)).
Proof.
  intros pre line post.
  assert (split_on LF TWICE_LABELLED = pre ++ line :: post) as Hlines
    by reflexivity.
  assert (startswith line KEYWORDS_LABEL = true) as Hline by reflexivity.
  assert (no_line_with KEYWORDS_LABEL post) as Hpost
    by (repeat constructor).
  destruct (C9_empty_keywords_are_kept TWICE_LABELLED pre post line
              Hlines Hline Hpost)
    as (Hk & Hlen & Hseg & _).
  split; [exact Hlines|]. split; [exact Hline|]. split; [exact Hpost|].
  split; [rewrite Hk; reflexivity|].
  split; [rewrite Hlen; reflexivity|].
  apply (Hseg []); [|reflexivity]. vm_compute. tauto.
Defined.

(** The document [TWICE_LABELLED]: the first [Keywords:] and [Hashtags:]
    lines leave no trace in the result. *)
Lemma C10_witness :
  let p := parse_description TWICE_LABELLED in
  split_on LF TWICE_LABELLED
  = [lit "Two cats."; lit "Keywords: old, stale"; lit "Hashtags: #old"]
      ++ lit "Keywords: cat,, dog,"
      :: [lit "Hashtags: #cat dog #pets"; lit "The end."] /\
  split_on LF TWICE_LABELLED
  = [lit "Two cats."; lit "Keywords: old, stale"; lit "Hashtags: #old";
     lit "Keywords: cat,, dog,"]
      ++ lit "Hashtags: #cat dog #pets" :: [lit "The end."] /\
  keywords p = [lit "cat"; []; lit "dog"; []] /\
  tags p = [lit "cat"; []; lit "dog"; []] /\
  hashtags p = [lit "#cat"; lit "#pets"].
Proof.
  intros p.
  assert (split_on LF TWICE_LABELLED
          = [lit "Two cats."; lit "Keywords: old, stale";
             lit "Hashtags: #old"]
              ++ lit "Keywords: cat,, dog,"
              :: [lit "Hashtags: #cat dog #pets"; lit "The end."])
    as Hk by reflexivity.
  assert (split_on LF TWICE_LABELLED
          = [lit "Two cats."; lit "Keywords: old, stale";
             lit "Hashtags: #old"; lit "Keywords: cat,, dog,"]
              ++ lit "Hashtags: #cat dog #pets" :: [lit "The end."])
    as Hh by reflexivity.
  destruct (C10_last_labelled_line_wins TWICE_LABELLED _ _ _ Hk) as [Hkw _].
  destruct (C10_last_labelled_line_wins TWICE_LABELLED _ _ _ Hh) as [_ Hht].
  destruct Hkw as [Ekw Etags]; [reflexivity | repeat constructor |].
  assert (hashtags (parse_description TWICE_LABELLED)
          = hashtags_of_line (lit "Hashtags: #cat dog #pets")) as Eh.
  { apply Hht; [reflexivity | repeat constructor]. }
  split; [exact Hk|]. split; [exact Hh|].
  unfold p. rewrite Ekw, Etags, Eh. repeat split.
Defined.

(* ===================================================================== *)
(** * The frame sampler *)
(* ===================================================================== *)

(** C3, amended: on a video of [T >= N + 1] frames that opens and on
    which every seek, decode and conversion succeeds,
    [extract_video_frames] returns exactly [N] frames, the frame of
    iteration [i] being the one read after the seek to
    [floor ((i + 1) * T / (N + 1))], provided [N * T < 2 ^ 53], the range
    in which the binary64 division of the source is exact on the integer
    part.  The calls made are the open, the frame count, one seek and one
    read per position in increasing order of [i], and the release. *)
Theorem C3_frames_at_even_positions
        (env : Env) (t : trace) (path : str) (cap : Capture) (T N : Z)
        (Hvideo : healthy_video env path cap T)
        (HN : (0 <= N)%Z) (HT : (N + 1 <= T)%Z)
        (Hexact : (N * T < 2 ^ 53)%Z) :
  exists frames,
    extract_video_frames path N env t
    = (Ok frames,
       t ++ [EvCapOpen path; EvCapGet]
         ++ flat_map (fun i => seek_and_read (sample_position T N i))
                     (range N)
         ++ [EvCapRelease]) /\
    length frames = Z.to_nat N /\
    Forall2 (fun i img => sampled_at env cap i (sample_position T N i) img)
            (range N) frames.
Proof.
  assert (computes_positions T N (sample_position T N) (range N)) as Hpos.
  { intros i Hi. apply range_bounds in Hi. unfold sample_position.
    apply int_truediv_exact; nia. }
  destruct (extract_video_frames_healthy env path cap T N Hvideo
              (sample_position T N) t Hpos) as [frames [Hrun Hframes]].
  exists frames. split; [exact Hrun|]. split; [|exact Hframes].
  apply Forall2_length in Hframes. rewrite <- Hframes. apply range_length.
Qed.

(** A clip of 30 frames sampled three times: the seeks go to the frames
    7, 15 and 22. *)
Lemma C3_witness :
  let env := studio (steady_capture 30) failing_model in
  healthy_video env CLIP (steady_capture 30) 30 /\
  (0 <= 3)%Z /\ (3 + 1 <= 30)%Z /\ (3 * 30 < 2 ^ 53)%Z /\
  exists frames,
    extract_video_frames CLIP 3 env []
    = (Ok frames,
       [EvCapOpen CLIP; EvCapGet;
        EvCapSet 7; EvCapRead; EvCapSet 15; EvCapRead;
        EvCapSet 22; EvCapRead; EvCapRelease]) /\
    length frames = 3.
Proof.
  intros env.
  assert (healthy_video env CLIP (steady_capture 30) 30) as Hvideo.
  { constructor; simpl; eauto. }
  assert (0 <= 3)%Z as HN by lia.
  assert (3 + 1 <= 30)%Z as HT by lia.
  assert (3 * 30 < 2 ^ 53)%Z as Hexact by reflexivity.
  destruct (C3_frames_at_even_positions env [] CLIP (steady_capture 30)
              30 3 Hvideo HN HT Hexact) as [frames [Hrun [Hlen _]]].
  repeat (split; [assumption|]).
  exists frames. split; [exact Hrun | exact Hlen].
Defined.

(** C3 as stated fails for a frame count beyond the exact range of
    binary64: with [T = 2 ^ 54 - 2] and [N = 2] the quotient
    [T / 3 = 6004799503160660.67] rounds up to the next integer before
    [int] truncates it. *)
Lemma C3_counterexample :
  let env := studio (steady_capture HUGE) failing_model in
  healthy_video env CLIP (steady_capture HUGE) HUGE /\
  (0 <= 2)%Z /\ (2 + 1 <= HUGE)%Z /\
  seek_positions (snd (extract_video_frames CLIP 2 env []))
  = [6004799503160661; 12009599006321322]%Z /\
  map (sample_position HUGE 2) (range 2)
  = [6004799503160660; 12009599006321321]%Z /\
  seek_positions (snd (extract_video_frames CLIP 2 env []))
  <> map (sample_position HUGE 2) (range 2).
Proof.
  intros env. split; [constructor; simpl; eauto|].
  split; [lia|]. split; [vm_compute; discriminate|].
  split; [vm_compute; reflexivity|].
  split; [vm_compute; reflexivity|].
  vm_compute. discriminate.
Qed.

(** C7 (defect of the code): when a conversion raises inside the loop,
    control passes to the [except] branch, which prints and returns the
    empty list; the release call after the loop is skipped, so the trace
    holds an open that no release follows.  On the same clip with a
    working conversion the release is the last call. *)
Theorem C7_capture_not_released_on_exception :
  let env := bad_pixels (steady_capture 30) failing_model in
  let sound := studio (steady_capture 30) failing_model in
  extract_video_frames CLIP 2 env []
  = (Ok [],
     [EvCapOpen CLIP; EvCapGet; EvCapSet 10; EvCapRead;
      EvPrint (lit "Error extracting frames: cvtColor failed")]) /\
  handles_released (snd (extract_video_frames CLIP 2 env [])) = false /\
  snd (extract_video_frames CLIP 2 sound [])
  = [EvCapOpen CLIP; EvCapGet; EvCapSet 10; EvCapRead;
     EvCapSet 20; EvCapRead; EvCapRelease] /\
  handles_released (snd (extract_video_frames CLIP 2 sound [])) = true.
Proof. intros env sound. repeat split; vm_compute; reflexivity. Qed.

(* ===================================================================== *)
(** * The model stages *)
(* ===================================================================== *)

(** C8: [analyze_video_content] always returns.  When the frame sampler
    yields no frame it returns the sentinel [Unable to analyze video
    content], with the trace of the sampler unchanged and no model call
    made; when the model call raises it returns the other sentinel,
    [Video content analysis unavailable], after printing the error. *)
Theorem C8_analysis_sentinels (env : Env) (t : trace) (path : str) :
  exists frames t1,
    extract_video_frames path 2 env t = (Ok frames, t1) /\
    (frames = [] ->
     analyze_video_content path env t = (Ok UNABLE_TO_ANALYZE, t1) /\
     model_calls t1 = model_calls t) /\
    (forall frame rest e,
       frames = frame :: rest ->
       generate_content env (model_calls t1) analysis_prompt (Some frame)
       = Raise e ->
       analyze_video_content path env t
       = (Ok ANALYSIS_UNAVAILABLE,
          t1 ++ [EvGenerate analysis_prompt (Some frame);
                 EvPrint (lit "Error analyzing video content: "
                            ++ exn_msg e)])) /\
    UNABLE_TO_ANALYZE <> ANALYSIS_UNAVAILABLE.
Proof.
  destruct (extract_video_frames_never_raises path 2 env t)
    as [frames [t1 Hextract]].
  exists frames, t1. split; [exact Hextract|].
  pose proof (analyze_video_content_eq path env t t1 frames Hextract) as Heq.
  pose proof (extract_video_frames_keeps_model_calls path 2 env t) as Hcalls.
  rewrite Hextract in Hcalls. simpl in Hcalls.
  split; [|split].
  - intros ->. now split.
  - intros frame rest e -> Hraise. rewrite Heq, Hraise.
    now rewrite <- app_assoc.
  - discriminate.
Qed.

(** A file that does not open gives no frame and the first sentinel,
    without a model call; a clip whose model call fails gives the
    second. *)
Lemma C8_witness :
  analyze_video_content CLIP (studio unopened_capture failing_model) []
  = (Ok (lit "Unable to analyze video content"),
     [EvCapOpen CLIP; EvCapGet; EvCapSet 0; EvCapRead; EvCapSet 0;
      EvCapRead; EvCapRelease]) /\
  fst (analyze_video_content CLIP (studio (steady_capture 30) failing_model)
                             [])
  = Ok (lit "Video content analysis unavailable").
Proof.
  split.
  - destruct (C8_analysis_sentinels (studio unopened_capture failing_model)
                [] CLIP) as (frames & t1 & Hextract & Hnone & _).
    vm_compute in Hextract. injection Hextract as <- <-.
    destruct (Hnone eq_refl) as [-> _]. reflexivity.
  - destruct (C8_analysis_sentinels
                (studio (steady_capture 30) failing_model) [] CLIP)
      as (frames & t1 & Hextract & _ & Hraise & _).
    vm_compute in Hextract. injection Hextract as <- <-.
    erewrite Hraise; reflexivity.
Defined.

(** C6, amended: from a response [r] of the model, [generate_title]
    returns the trimmed [r] with every double and every single quote
    deleted, those inside the title included, so that the title holds no
    quote character; when the call raises it returns the literal
    [Amazing Video Content]. *)
Theorem C6_title_drops_every_quote
        (analysis : str) (env : Env) (t : trace) :
  let answer :=
    generate_content env (model_calls t) (title_prompt analysis) None in
  (forall r, answer = Ok r ->
     exists title t',
       generate_title analysis env t = (Ok title, t') /\
       title = filter (fun c => negb (is_quote c)) (strip r) /\
       Forall (fun c => is_quote c = false) title) /\
  (forall e, answer = Raise e ->
     exists t',
       generate_title analysis env t
       = (Ok (lit "Amazing Video Content"), t')).
Proof.
  intros answer. pose proof (generate_title_eq analysis env t) as Heq.
  cbv zeta in Heq. fold answer in Heq. split.
  - intros r Hr. rewrite Hr in Heq.
    eexists _, _. split; [exact Heq|]. rewrite clean_title_filter.
    split; [reflexivity|]. apply Forall_forall. intros c Hc.
    apply filter_In in Hc as [_ Hc]. now apply negb_true_iff in Hc.
  - intros e He. rewrite He in Heq. eexists. exact Heq.
Qed.

(** A quoted response with an apostrophe inside, and a failed call. *)
Lemma C6_witness :
  fst (generate_title [] (studio unopened_capture chatty_model) [])
  = Ok (lit "Dont Blink") /\
  fst (generate_title [] (studio unopened_capture failing_model) [])
  = Ok (lit "Amazing Video Content").
Proof.
  split.
  - destruct (C6_title_drops_every_quote
                [] (studio unopened_capture chatty_model) [])
      as [Hok _].
    destruct (Hok _ eq_refl) as (title & t' & -> & -> & _). reflexivity.
  - destruct (C6_title_drops_every_quote
                [] (studio unopened_capture failing_model) [])
      as [_ Hraise].
    destruct (Hraise _ eq_refl) as (t' & ->). reflexivity.
Defined.

(** C6 as stated fails: the apostrophe inside [Don't Blink] is not
    preserved, whereas stripping only the surrounding quotes would keep
    it. *)
Lemma C6_counterexample :
  let env := studio unopened_capture chatty_model in
  let r := lit " 'Don't Blink' " in
  generate_content env 0 (title_prompt []) None = Ok r /\
  strip_surrounding_quotes (strip r) = lit "Don't Blink" /\
  fst (generate_title [] env []) = Ok (lit "Dont Blink") /\
  fst (generate_title [] env []) <> Ok (strip_surrounding_quotes (strip r)).
Proof.
  intros env r. repeat split; try reflexivity. vm_compute. discriminate.
Qed.

(* ===================================================================== *)
(** * The whole pipeline *)
(* ===================================================================== *)

Lemma metadata_dict_fully_populated
      (analysis title description : str) (p : Parsed) (generated_at : str) :
  fully_populated
    (metadata_dict analysis title description p generated_at).
Proof.
  intros key Hkey. unfold metadata_keys in Hkey. simpl in Hkey.
  repeat (destruct Hkey as [<- | Hkey];
          [eexists; split; [reflexivity | discriminate]|]).
  contradiction.
Qed.

(** C1, amended: whatever the video and whatever each of the three model
    calls does (it returns a text or raises an exception),
    [generate_complete_metadata] returns a record, raising nothing, in
    which all seven fields are present and not [None]; the progress
    messages and the clock are taken not to raise.  When the title call
    raises, the title is the literal fallback, which is not empty;
    otherwise it is the response, trimmed and then rid of every quote, and
    it is not empty exactly when the trimmed response has a character
    other than a quote.  When the description call raises, the description
    is the fallback document, which is not empty; otherwise it is the
    trimmed response, and it is not empty exactly when the response has a
    character other than whitespace. *)
Theorem C1_pipeline_returns_populated_record
        (env : Env) (t : trace) (path : str) :
  exists (analysis title description : str) (t1 : trace)
         (md : Dict) (t' : trace),
    analyze_video_content path env (t ++ [EvPrint MSG_ANALYZING])
    = (Ok analysis, t1) /\
    generate_complete_metadata path env t = (Ok md, t') /\
    fully_populated md /\
    dict_get md (lit "video_analysis") = Some (PStr analysis) /\
    dict_get md (lit "title") = Some (PStr title) /\
    dict_get md (lit "description") = Some (PStr description) /\
    (let answer :=
       generate_content env (model_calls t1) (title_prompt analysis) None in
     (forall e, answer = Raise e -> title = FALLBACK_TITLE /\ title <> []) /\
     (forall r, answer = Ok r ->
        title = clean_title r /\
        (title <> [] <-> existsb not_quote (strip r) = true))) /\
    (let answer :=
       generate_content env (S (model_calls t1))
                        (description_prompt analysis) None in
     (forall e, answer = Raise e ->
        description = _fallback_description /\ description <> []) /\
     (forall r, answer = Ok r ->
        description = strip r /\
        (description <> [] <-> existsb not_space r = true))).
Proof.
  destruct (analyze_video_content_never_raises
              path env (t ++ [EvPrint MSG_ANALYZING]))
    as [analysis [t1 Hanalysis]].
  set (t2 := (t1 ++ [EvPrint MSG_ANALYZED]) ++ [EvPrint MSG_TITLE]).
  assert (model_calls t2 = model_calls t1) as Hc2.
  { unfold t2. now rewrite !model_calls_snoc. }
  pose proof (generate_title_eq analysis env t2) as Htitle.
  cbv zeta in Htitle. rewrite Hc2 in Htitle.
  destruct (generate_title analysis env t2) as [rt t3] eqn:Et.
  assert (model_calls t3 = S (model_calls t1)) as Hc3.
  { destruct (generate_content env (model_calls t1) _ None);
      injection Htitle as _ ->;
      rewrite ?model_calls_snoc by reflexivity;
      rewrite model_calls_app, Hc2; unfold model_calls at 2; simpl; lia. }
  set (t4 := t3 ++ [EvPrint MSG_DESCRIPTION]).
  assert (model_calls t4 = S (model_calls t1)) as Hc4.
  { unfold t4. now rewrite model_calls_snoc. }
  pose proof (generate_description_eq analysis env t4) as Hdesc.
  cbv zeta in Hdesc. rewrite Hc4 in Hdesc.
  destruct (generate_description analysis env t4) as [rd t5] eqn:Ed.
  assert (exists title, rt = Ok title) as [title ->].
  { destruct (generate_content env (model_calls t1) _ None);
      injection Htitle as -> _; eauto. }
  assert (exists description, rd = Ok description) as [description ->].
  { destruct (generate_content env (S (model_calls t1)) _ None);
      injection Hdesc as -> _; eauto. }
  exists analysis, title, description, t1.
  eexists _, t5. split; [exact Hanalysis|]. split.
  { unfold generate_complete_metadata, bind, print, call,
      datetime_now_isoformat, ret.
    rewrite Hanalysis. fold t2. rewrite Et. fold t4. rewrite Ed.
    reflexivity. }
  split; [apply metadata_dict_fully_populated|].
  split; [reflexivity|]. split; [reflexivity|]. split; [reflexivity|].
  split; cbv zeta.
  - split.
    + intros e He. rewrite He in Htitle. injection Htitle as -> _.
      split; [reflexivity | discriminate].
    + intros r Hr. rewrite Hr in Htitle. injection Htitle as -> _.
      split; [reflexivity | apply clean_title_nonempty_iff].
  - split.
    + intros e He. rewrite He in Hdesc. injection Hdesc as -> _.
      split; [reflexivity | discriminate].
    + intros r Hr. rewrite Hr in Hdesc. injection Hdesc as -> _.
      split; [reflexivity | apply strip_nonempty_iff].
Qed.

(** Total failure of the model on a file that does not open: the record
    carries the sentinel analysis, the fallback title and the fallback
    description.  A model that answers with a blank between two double
    quotes: the title is the blank, which is not the empty string. *)
Lemma C1_witness :
  (exists md t',
     generate_complete_metadata CLIP
       (studio unopened_capture failing_model) [] = (Ok md, t') /\
     fully_populated md /\
     dict_get md (lit "video_analysis")
     = Some (PStr (lit "Unable to analyze video content")) /\
     dict_get md (lit "title") = Some (PStr (lit "Amazing Video Content")) /\
     dict_get md (lit "description") = Some (PStr _fallback_description) /\
     nonempty_field md (lit "title") /\
     nonempty_field md (lit "description")) /\
  (exists md t',
     generate_complete_metadata CLIP
       (studio unopened_capture quoted_blank_model) [] = (Ok md, t') /\
     dict_get md (lit "title") = Some (PStr (lit " ")) /\
     nonempty_field md (lit "title")).
Proof.
  split.
  - destruct (C1_pipeline_returns_populated_record
                (studio unopened_capture failing_model) [] CLIP)
      as (analysis & title & description & t1 & md & t' & Ha & Hrun & Hfull
          & Hga & Hgt & Hgd & [Ht _] & [Hd _]).
    vm_compute in Ha. injection Ha as <- <-.
    destruct (Ht _ eq_refl) as [Etitle Htne].
    destruct (Hd _ eq_refl) as [Edesc Hdne].
    exists md, t'. split; [exact Hrun|]. split; [exact Hfull|].
    split; [exact Hga|].
    split; [rewrite Hgt, Etitle; reflexivity|].
    split; [rewrite Hgd, Edesc; reflexivity|].
    split; [exists title | exists description]; auto.
  - destruct (C1_pipeline_returns_populated_record
                (studio unopened_capture quoted_blank_model) [] CLIP)
      as (analysis & title & description & t1 & md & t' & Ha & Hrun & _
          & _ & Hgt & _ & [_ Ht] & _).
    vm_compute in Ha. injection Ha as <- <-.
    destruct (Ht _ eq_refl) as [Etitle Hiff].
    exists md, t'. split; [exact Hrun|].
    split; [rewrite Hgt, Etitle; reflexivity|].
    exists title. split; [exact Hgt|]. apply Hiff. reflexivity.
Defined.

(** C1 as stated fails: a model that answers with blanks gives a record
    whose title and description are empty strings. *)
Lemma C1_counterexample :
  let env := studio unopened_capture blank_model in
  exists md t',
    generate_complete_metadata CLIP env [] = (Ok md, t') /\
    dict_get md (lit "title") = Some (PStr []) /\
    dict_get md (lit "description") = Some (PStr []) /\
    ~ nonempty_field md (lit "title") /\
    ~ nonempty_field md (lit "description").
Proof.
  intros env. eexists _, _. split; [vm_compute; reflexivity|].
  split; [reflexivity|]. split; [reflexivity|].
  split; intros [s [Hs Hne]]; vm_compute in Hs; congruence.
Qed.

(* ===================================================================== *)
(** * Further properties of the scan of the description *)
(* ===================================================================== *)

Section ScanCharacterisation.

Lemma scan_lines_last (lines : list str) (line : str) :
  scan_lines (lines ++ [line]) = scan_line (scan_lines lines) line.
Proof. unfold scan_lines. now rewrite fold_left_app. Qed.

(** The state after the loop, read off the last labelled lines. *)
Lemma scan_lines_characterised (lines : list str) :
  let kws :=
    match last_line_with KEYWORDS_LABEL lines with
    | Some line => keywords_of_line line
    | None => []
    end in
  scan_lines lines
  = {| hashtags :=
         match last_line_with HASHTAGS_LABEL lines with
         | Some line => hashtags_of_line line
         | None => []
         end;
       keywords := kws;
       tags := slice_to 15 kws |}.
Proof.
  induction lines as [|line lines IH] using rev_ind; [reflexivity|].
  cbv zeta in *. rewrite scan_lines_last, IH. clear IH.
  unfold last_line_with, scan_line. rewrite !rev_unit. cbn [find].
  destruct (startswith line HASHTAGS_LABEL) eqn:Hh.
  - destruct (startswith line KEYWORDS_LABEL) eqn:Hk; [|reflexivity].
    apply labels_exclusive in Hk. congruence.
  - destruct (startswith line KEYWORDS_LABEL); reflexivity.
Qed.

(** X1: The three lists depend only on the last [Keywords:] line and on
    the last [Hashtags:] line of the document. *)
Theorem scan_lines_by_last_lines (lines : list str) :
  let kws :=
    match last_line_with KEYWORDS_LABEL lines with
    | Some line => keywords_of_line line
    | None => []
    end in
  scan_lines lines
  = {| hashtags :=
         match last_line_with HASHTAGS_LABEL lines with
         | Some line => hashtags_of_line line
         | None => []
         end;
       keywords := kws;
       tags := slice_to 15 kws |}.
Proof. exact (scan_lines_characterised lines). Qed.

Lemma last_line_with_filter (label : str) (lines : list str) :
  (forall line, startswith line label = true -> is_labelled line = true) ->
  last_line_with label (filter is_labelled lines)
  = last_line_with label lines.
Proof.
  intros Hlab. unfold last_line_with.
  induction lines as [|line lines IH] using rev_ind; [reflexivity|].
  rewrite filter_app, !rev_app_distr. cbn [filter rev app].
  destruct (is_labelled line) eqn:Hl; cbn [rev app find].
  - destruct (startswith line label); [reflexivity | exact IH].
  - rewrite IH. destruct (startswith line label) eqn:Hs; [|reflexivity].
    apply Hlab in Hs. congruence.
Qed.

(** X2: Lines that start with neither label play no part: deleting them
    from the document leaves the three lists unchanged. *)
Theorem unlabelled_lines_are_ignored (lines : list str) :
  scan_lines (filter is_labelled lines) = scan_lines lines.
Proof.
  rewrite !scan_lines_characterised. cbv zeta.
  rewrite !last_line_with_filter; [reflexivity| |];
    intros line H; unfold is_labelled; rewrite H;
    [apply orb_true_r | reflexivity].
Qed.

End ScanCharacterisation.

(* ===================================================================== *)
(** * What the parsed entries look like *)
(* ===================================================================== *)

Section EntryShape.

Lemma lstrip_incl (s : str) (c : char) : In c (lstrip s) -> In c s.
Proof.
  induction s as [|x s IH]; simpl; [tauto|].
  destruct (isspace x); simpl; tauto.
Qed.

Lemma rstrip_incl (s : str) (c : char) : In c (rstrip s) -> In c s.
Proof.
  induction s as [|x s IH]; simpl; [tauto|].
  destruct (rstrip s) as [|y r].
  - destruct (isspace x); simpl; tauto.
  - simpl in *. tauto.
Qed.

Lemma strip_incl (s : str) (c : char) : In c (strip s) -> In c s.
Proof. intros H. now apply lstrip_incl, rstrip_incl. Qed.

Lemma lstrip_head_nonspace (s : str) :
  match lstrip s with [] => True | c :: _ => isspace c = false end.
Proof.
  induction s as [|x s IH]; simpl; [exact I|].
  destruct (isspace x) eqn:Hx; [exact IH | exact Hx].
Qed.

Lemma rstrip_keeps_head (c : char) (s : str) :
  isspace c = false -> exists r, rstrip (c :: s) = c :: r.
Proof.
  intros Hc. simpl. destruct (rstrip s) as [|y r]; [|now exists (y :: r)].
  rewrite Hc. now exists [].
Qed.

Lemma rstrip_last_nonspace (s : str) (d : char) :
  rstrip s <> [] -> isspace (last (rstrip s) d) = false.
Proof.
  induction s as [|x s IH]; simpl; [congruence|].
  destruct (rstrip s) as [|y r] eqn:E.
  - destruct (isspace x) eqn:Hx; [congruence | intros _; exact Hx].
  - intros _. specialize (IH ltac:(discriminate)). exact IH.
Qed.

(** [strip] leaves no whitespace at either end. *)
Lemma strip_trimmed (s : str) : trimmed (strip s).
Proof.
  unfold strip, trimmed.
  pose proof (lstrip_head_nonspace s) as Hhead.
  destruct (lstrip s) as [|c t] eqn:El; [exact I|].
  destruct (rstrip_keeps_head c t Hhead) as [r Er].
  pose proof (rstrip_last_nonspace (c :: t) c) as Hlast.
  rewrite Er in *. split; [exact Hhead|].
  apply Hlast. discriminate.
Qed.

Lemma rstrip_fixed (s : str) (d : char) :
  s <> [] -> isspace (last s d) = false -> rstrip s = s.
Proof.
  induction s as [|x s IH]; [congruence|]. intros _ Hlast.
  destruct s as [|y s'].
  - simpl in *. now rewrite Hlast.
  - change (last (x :: y :: s') d) with (last (y :: s') d) in Hlast.
    cbn [rstrip]. cbn [rstrip] in IH.
    rewrite IH by (discriminate || assumption). reflexivity.
Qed.

Lemma trimmed_strip (s : str) : trimmed s -> strip s = s.
Proof.
  destruct s as [|c t]; [reflexivity|]. intros [Hc Hlast].
  unfold strip. cbn [lstrip]. rewrite Hc.
  now apply (rstrip_fixed (c :: t) c).
Qed.

Lemma strip_idempotent (s : str) : strip (strip s) = strip s.
Proof. apply trimmed_strip, strip_trimmed. Qed.

Lemma replace_from_delete_incl (old : str) (s : str) (k : nat) (c : char) :
  In c (replace_from old [] k s) -> In c s.
Proof.
  revert k. induction s as [|x s IH]; intros k; simpl; [tauto|].
  destruct k as [|k].
  - destruct (startswith (x :: s) old); simpl; intros H.
    + right. now apply IH in H.
    + destruct H as [H|H]; [now left | right; now apply IH in H].
  - intros H. right. now apply IH in H.
Qed.

Lemma replace_delete_incl (s old : str) (c : char) :
  In c (replace s old []) -> In c s.
Proof.
  unfold replace. destruct old as [|o old'].
  - simpl. induction s as [|x s IH]; simpl; tauto.
  - apply replace_from_delete_incl.
Qed.

Lemma fields_incl (sep : char -> bool) (s w : str) (c : char) :
  In w (fields sep s) -> In c w -> In c s.
Proof.
  revert w. induction s as [|x s IH]; intros w; simpl.
  - intros [<-|[]] [].
  - destruct (sep x).
    + intros [<-|Hw] Hc; [destruct Hc|]. right. now apply (IH w).
    + destruct (fields sep s) as [|v vs] eqn:E.
      * intros [<-|[]] [<-|[]]. now left.
      * intros [<-|Hw] Hc.
        -- destruct Hc as [<-|Hc]; [now left|].
           right. apply (IH v); [now left | exact Hc].
        -- right. apply (IH w); [now right | exact Hc].
Qed.

Lemma last_line_with_in (label : str) (lines : list str) (line : str) :
  last_line_with label lines = Some line ->
  In line lines /\ startswith line label = true.
Proof.
  unfold last_line_with. intros H. apply find_some in H as [Hin Hs].
  split; [now apply in_rev | exact Hs].
Qed.

Lemma keyword_shape (line : str) (k : str) :
  In k (keywords_of_line line) ->
  strip k = k /\ ~ In COMMA k /\ (forall c, In c k -> In c line).
Proof.
  unfold keywords_of_line, split_on. intros H.
  apply in_map_iff in H as [seg [<- Hseg]].
  split; [apply strip_idempotent|]. split.
  - intros Hc. apply strip_incl in Hc.
    pose proof (fields_no_sep (N.eqb COMMA)
                  (strip (replace line KEYWORDS_LABEL []))) as Hno.
    rewrite Forall_forall in Hno. specialize (Hno seg Hseg).
    rewrite Forall_forall in Hno. specialize (Hno COMMA Hc).
    now rewrite N.eqb_refl in Hno.
  - intros c Hc. apply strip_incl in Hc.
    apply (fields_incl _ _ _ _ Hseg) in Hc.
    now apply strip_incl, replace_delete_incl in Hc.
Qed.

(** X3: Every keyword and every tag is trimmed and holds neither a comma
    nor a line feed, the one character at which the document is split
    into lines (a carriage return or another line separator of Unicode
    can stay inside a keyword); every hashtag is a non-empty token without
    whitespace that starts with the marker. *)
Theorem parsed_entries_are_clean (description : str) :
  let p := parse_description description in
  let clean k := strip k = k /\ ~ In COMMA k /\ ~ In LF k in
  Forall clean (keywords p) /\
  Forall clean (tags p) /\
  Forall (fun h => h <> [] /\ Forall (fun c => isspace c = false) h /\
                   startswith h [HASH] = true)
         (hashtags p).
Proof.
  intros p clean. unfold p, parse_description.
  rewrite scan_lines_characterised. cbv zeta. cbn [keywords tags hashtags].
  assert (Forall clean
            match last_line_with KEYWORDS_LABEL (split_on LF description) with
            | Some line => keywords_of_line line
            | None => []
            end) as Hk.
  { destruct (last_line_with _ _) as [line|] eqn:E; [|constructor].
    apply last_line_with_in in E as [Hin _].
    apply Forall_forall. intros k Hkw.
    destruct (keyword_shape line k Hkw) as (Hs & Hc & Hsub).
    split; [exact Hs|]. split; [exact Hc|].
    intros Hlf. apply Hsub in Hlf.
    pose proof (fields_no_sep (N.eqb LF) description) as Hno.
    rewrite Forall_forall in Hno. specialize (Hno line Hin).
    rewrite Forall_forall in Hno. specialize (Hno LF Hlf).
    now rewrite N.eqb_refl in Hno. }
  split; [exact Hk|]. split.
  - apply Forall_forall. intros k Hin. rewrite Forall_forall in Hk.
    apply Hk. unfold slice_to in Hin.
    rewrite <- (firstn_skipn 15). apply in_or_app. now left.
  - destruct (last_line_with HASHTAGS_LABEL _) as [line|]; [|constructor].
    rewrite hashtags_of_line_filter. apply Forall_forall. intros h Hin.
    apply filter_In in Hin as [Hin Hm].
    apply split_token in Hin as [Hne Hws]. now repeat split.
Qed.

End EntryShape.

(* ===================================================================== *)
(** * The deletion of the label *)
(* ===================================================================== *)

Section LabelDeletion.

Lemma startswith_app (old rest : str) : startswith (old ++ rest) old = true.
Proof.
  induction old as [|o old IH]; simpl; [reflexivity|].
  now rewrite N.eqb_refl.
Qed.

Lemma startswith_incl (s old : str) (c : char) :
  startswith s old = true -> In c old -> In c s.
Proof.
  revert s. induction old as [|o old IH]; intros s Hs Hc; [destruct Hc|].
  apply startswith_cons_inv in Hs as [s' [-> Hs']].
  destruct Hc as [<-|Hc]; [now left | right; now apply IH].
Qed.

Lemma replace_from_skip (old new pre rest : str) :
  replace_from old new (length pre) (pre ++ rest)
  = replace_from old new 0 rest.
Proof.
  induction pre as [|x pre IH]; [|exact IH].
  destruct rest; reflexivity.
Qed.

(** An occurrence at the start is replaced and the scan goes on behind
    it. *)
Lemma replace_prefix (old new rest : str) :
  old <> [] -> replace (old ++ rest) old new = new ++ replace rest old new.
Proof.
  destruct old as [|o old']; [congruence|]. intros _.
  unfold replace. cbn [app replace_from].
  change (o :: old' ++ rest) with ((o :: old') ++ rest).
  rewrite startswith_app.
  replace (length (o :: old') - 1) with (length old') by (simpl; lia).
  now rewrite replace_from_skip.
Qed.

(** A string that lacks one character of [old] holds no occurrence of
    it. *)
Lemma replace_absent (old new s : str) (c : char) :
  In c old -> ~ In c s -> replace s old new = s.
Proof.
  intros Hc. unfold replace. destruct old as [|o old']; [destruct Hc|].
  induction s as [|x s IH]; intros Hs; [reflexivity|].
  cbn [replace_from].
  destruct (startswith (x :: s) (o :: old')) eqn:E.
  - exfalso. apply Hs. now apply (startswith_incl _ _ _ E).
  - f_equal. apply IH. intros Hin. apply Hs. now right.
Qed.

(** A labelled line without its leading label. *)
Lemma labelled_line_remainder (rest : str) :
  keywords_of_line (KEYWORDS_LABEL ++ rest)
  = map strip
        (split_on COMMA (strip (replace rest KEYWORDS_LABEL []))) /\
  hashtags_of_line (HASHTAGS_LABEL ++ rest)
  = filter (fun token => startswith token [HASH])
           (split (strip (replace rest HASHTAGS_LABEL []))).
Proof.
  split.
  - unfold keywords_of_line. now rewrite replace_prefix by discriminate.
  - rewrite hashtags_of_line_filter.
    now rewrite replace_prefix by discriminate.
Qed.

(** X4: The label is deleted wherever it occurs in a labelled line, not only
    at its start: what follows the leading label is scanned for further
    occurrences before it is split. *)
Theorem label_deleted_everywhere (rest : str) :
  keywords_of_line (KEYWORDS_LABEL ++ rest)
  = map strip
        (split_on COMMA (strip (replace rest KEYWORDS_LABEL []))) /\
  hashtags_of_line (HASHTAGS_LABEL ++ rest)
  = filter (fun token => startswith token [HASH])
           (split (strip (replace rest HASHTAGS_LABEL []))).
Proof. exact (labelled_line_remainder rest). Qed.

(** X5: For a line made of the label and a text without a further colon, the
    keywords are the trimmed comma-separated pieces of that text and the
    hashtags are its whitespace-separated tokens that start with the
    marker. *)
Theorem plain_labelled_line (rest : str) (Hplain : ~ In COLON rest) :
  keywords_of_line (KEYWORDS_LABEL ++ rest)
  = map strip (split_on COMMA (strip rest)) /\
  hashtags_of_line (HASHTAGS_LABEL ++ rest)
  = filter (fun token => startswith token [HASH]) (split (strip rest)).
Proof.
  destruct (labelled_line_remainder rest) as [-> ->].
  rewrite !(replace_absent _ _ _ COLON); try assumption.
  - now split.
  - unfold HASHTAGS_LABEL, COLON. vm_compute. tauto.
  - unfold KEYWORDS_LABEL, COLON. vm_compute. tauto.
Qed.

(** The same text behind each of the two labels. *)
Lemma plain_labelled_line_witness :
  ~ In COLON (lit " cat, dog,  bird #pets") /\
  keywords_of_line (lit "Keywords: cat, dog,  bird #pets")
  = [lit "cat"; lit "dog"; lit "bird #pets"] /\
  hashtags_of_line (lit "Hashtags: cat, dog,  bird #pets") = [lit "#pets"].
Proof.
  assert (~ In COLON (lit " cat, dog,  bird #pets")) as Hplain.
  { vm_compute. intros H. repeat (destruct H as [H|H]; [discriminate|]).
    exact H. }
  destruct (plain_labelled_line (lit " cat, dog,  bird #pets") Hplain)
    as [Hk Hh].
  split; [exact Hplain|]. split.
  - change (lit "Keywords: cat, dog,  bird #pets")
      with (KEYWORDS_LABEL ++ lit " cat, dog,  bird #pets").
    rewrite Hk. reflexivity.
  - change (lit "Hashtags: cat, dog,  bird #pets")
      with (HASHTAGS_LABEL ++ lit " cat, dog,  bird #pets").
    rewrite Hh. reflexivity.
Defined.

End LabelDeletion.

(* ===================================================================== *)
(** * The run of the pipeline, stage by stage *)
(* ===================================================================== *)

Section PipelineRun.
Local Open Scope py_scope.

Lemma generate_title_never_raises analysis :
  never_raises (generate_title analysis).
Proof.
  apply try_never_raises. intros e. apply print_then_ret_never_raises.
Qed.

Lemma generate_description_never_raises analysis :
  never_raises (generate_description analysis).
Proof.
  apply try_never_raises. intros e. apply print_then_ret_never_raises.
Qed.

(** The pipeline is the sequence of its three stages, with the progress
    messages in between, followed by the scan and the clock. *)
Lemma pipeline_run (env : Env) (t : trace) (path : str) :
  exists (analysis title description : str) (t1 t3 t5 : trace),
    analyze_video_content path env (t ++ [EvPrint MSG_ANALYZING])
    = (Ok analysis, t1) /\
    generate_title analysis env
      ((t1 ++ [EvPrint MSG_ANALYZED]) ++ [EvPrint MSG_TITLE])
    = (Ok title, t3) /\
    generate_description analysis env (t3 ++ [EvPrint MSG_DESCRIPTION])
    = (Ok description, t5) /\
    generate_complete_metadata path env t
    = (Ok (metadata_dict analysis title description
                         (parse_description description)
                         (now_isoformat env)),
       t5).
Proof.
  destruct (analyze_video_content_never_raises
              path env (t ++ [EvPrint MSG_ANALYZING]))
    as [analysis [t1 Ha]].
  destruct (generate_title_never_raises analysis env
              ((t1 ++ [EvPrint MSG_ANALYZED]) ++ [EvPrint MSG_TITLE]))
    as [title [t3 Ht]].
  destruct (generate_description_never_raises analysis env
              (t3 ++ [EvPrint MSG_DESCRIPTION]))
    as [description [t5 Hd]].
  exists analysis, title, description, t1, t3, t5.
  repeat (split; [assumption|]).
  unfold generate_complete_metadata, bind, print, call,
    datetime_now_isoformat, ret.
  now rewrite Ha, Ht, Hd.
Qed.

Lemma filter_snoc_other (p : event -> bool) (t : trace) (ev : event) :
  p ev = false -> filter p (t ++ [ev]) = filter p t.
Proof. intros H. rewrite filter_app. simpl. rewrite H. apply app_nil_r. Qed.

Lemma filter_snoc_same (p : event -> bool) (t : trace) (ev : event) :
  p ev = true -> filter p (t ++ [ev]) = filter p t ++ [ev].
Proof. intros H. rewrite filter_app. simpl. now rewrite H. Qed.

Lemma analyze_model_calls (path : str) (env : Env) (t : trace)
      (frames : list Image) (t0 : trace) (analysis : str) (t1 : trace) :
  extract_video_frames path 2 env t = (Ok frames, t0) ->
  analyze_video_content path env t = (Ok analysis, t1) ->
  filter is_generate t1 = filter is_generate t ++ analysis_call frames.
Proof.
  intros Hx Ha.
  pose proof (extract_video_frames_avoids_model path 2 env t) as Hquiet.
  rewrite Hx in Hquiet. simpl in Hquiet.
  rewrite (analyze_video_content_eq path env t t0 frames Hx) in Ha.
  destruct frames as [|frame rest].
  - injection Ha as _ <-. simpl. now rewrite app_nil_r.
  - simpl. destruct (generate_content env _ _ _); injection Ha as _ <-.
    + now rewrite filter_snoc_same, Hquiet.
    + now rewrite filter_snoc_other, filter_snoc_same, Hquiet.
Qed.

Lemma title_model_calls (analysis : str) (env : Env) (t : trace)
      (title : str) (t3 : trace) :
  generate_title analysis env t = (Ok title, t3) ->
  filter is_generate t3
  = filter is_generate t ++ [EvGenerate (title_prompt analysis) None].
Proof.
  rewrite generate_title_eq. cbv zeta.
  destruct (generate_content env _ _ _); intros H; injection H as _ <-.
  - now rewrite filter_snoc_same.
  - now rewrite filter_snoc_other, filter_snoc_same.
Qed.

Lemma description_model_calls (analysis : str) (env : Env) (t : trace)
      (description : str) (t5 : trace) :
  generate_description analysis env t = (Ok description, t5) ->
  filter is_generate t5
  = filter is_generate t ++ [EvGenerate (description_prompt analysis) None].
Proof.
  rewrite generate_description_eq. cbv zeta.
  destruct (generate_content env _ _ _); intros H; injection H as _ <-.
  - now rewrite filter_snoc_same.
  - now rewrite filter_snoc_other, filter_snoc_same.
Qed.

(** X6: One run of the pipeline calls the model for the analysis of the
    first sampled frame, if there is one, then for the title and then for
    the description, and at no other time; the two text prompts are built
    from the analysis that the record holds, sentinel or not. *)
Theorem pipeline_model_calls (env : Env) (t : trace) (path : str) :
  exists (frames : list Image) (t0 : trace) (md : Dict) (t' : trace)
         (analysis : str),
    extract_video_frames path 2 env (t ++ [EvPrint MSG_ANALYZING])
    = (Ok frames, t0) /\
    generate_complete_metadata path env t = (Ok md, t') /\
    dict_get md (lit "video_analysis") = Some (PStr analysis) /\
    filter is_generate t'
    = filter is_generate t
        ++ analysis_call frames
        ++ [EvGenerate (title_prompt analysis) None;
            EvGenerate (description_prompt analysis) None] /\
    (frames = [] -> analysis = UNABLE_TO_ANALYZE).
Proof.
  destruct (pipeline_run env t path)
    as (analysis & title & description & t1 & t3 & t5
        & Ha & Ht & Hd & Hrun).
  destruct (extract_video_frames_never_raises
              path 2 env (t ++ [EvPrint MSG_ANALYZING]))
    as [frames [t0 Hx]].
  exists frames, t0. eexists _, t5. exists analysis.
  split; [exact Hx|]. split; [exact Hrun|]. split; [reflexivity|]. split.
  - rewrite (description_model_calls _ _ _ _ _ Hd).
    rewrite filter_snoc_other by reflexivity.
    rewrite (title_model_calls _ _ _ _ _ Ht).
    rewrite !filter_snoc_other by reflexivity.
    rewrite (analyze_model_calls _ _ _ _ _ _ _ Hx Ha).
    rewrite filter_snoc_other by reflexivity.
    now rewrite <- !app_assoc.
  - intros ->.
    rewrite (analyze_video_content_eq _ _ _ _ _ Hx) in Ha. congruence.
Qed.

(** X7: When the model refuses every description prompt, the record carries
    the fallback document, its 20 keywords, the first 15 of them as tags
    and its 30 hashtags, whatever the video and the other two calls
    do. *)
Theorem failed_description_gives_fallback_lists
        (env : Env) (t : trace) (path : str)
        (Hfail : forall k analysis,
            exists e,
              generate_content env k (description_prompt analysis) None
              = Raise e) :
  exists md t',
    generate_complete_metadata path env t = (Ok md, t') /\
    dict_get md (lit "description") = Some (PStr _fallback_description) /\
    dict_get md (lit "keywords")
    = Some (PList (keywords (parse_description _fallback_description))) /\
    dict_get md (lit "tags")
    = Some (PList (firstn 15
                     (keywords (parse_description _fallback_description)))) /\
    dict_get md (lit "hashtags")
    = Some (PList (hashtags (parse_description _fallback_description))) /\
    length (keywords (parse_description _fallback_description)) = 20 /\
    length (hashtags (parse_description _fallback_description)) = 30.
Proof.
  destruct (pipeline_run env t path)
    as (analysis & title & description & t1 & t3 & t5
        & Ha & Ht & Hd & Hrun).
  rewrite generate_description_eq in Hd. cbv zeta in Hd.
  destruct (Hfail (model_calls (t3 ++ [EvPrint MSG_DESCRIPTION])) analysis)
    as [e He].
  rewrite He in Hd. injection Hd as <- _.
  eexists _, t5. split; [exact Hrun|].
  split; [reflexivity|]. split; [reflexivity|].
  split; [vm_compute; reflexivity|].
  split; [reflexivity|]. split; vm_compute; reflexivity.
Qed.

(** A studio whose model is out of quota. *)
Lemma failed_description_gives_fallback_lists_witness :
  exists md t',
    generate_complete_metadata CLIP
      (studio (steady_capture 30) failing_model) [] = (Ok md, t') /\
    dict_get md (lit "tags")
    = Some (PList (map lit
        [ "viral video"; "trending content"; "amazing moments";
          "entertainment"; "social media"; "short video"; "funny clips";
          "must watch"; "incredible"; "awesome"; "cool stuff";
          "viral clips"; "trending now"; "popular video";
          "engaging content" ]%string)).
Proof.
  destruct (failed_description_gives_fallback_lists
              (studio (steady_capture 30) failing_model) [] CLIP)
    as (md & t' & Hrun & _ & _ & Htags & _).
  { intros k analysis. eexists. reflexivity. }
  exists md, t'. split; [exact Hrun|]. rewrite Htags.
  vm_compute. reflexivity.
Defined.

(** X8: The analysis and the description of a record have no whitespace at
    either end, whether they come from the model or from a fallback. *)
Theorem record_texts_are_trimmed (env : Env) (t : trace) (path : str) :
  exists md t' analysis description,
    generate_complete_metadata path env t = (Ok md, t') /\
    dict_get md (lit "video_analysis") = Some (PStr analysis) /\
    dict_get md (lit "description") = Some (PStr description) /\
    trimmed analysis /\ trimmed description.
Proof.
  destruct (pipeline_run env t path)
    as (analysis & title & description & t1 & t3 & t5
        & Ha & Ht & Hd & Hrun).
  eexists _, t5. exists analysis, description.
  split; [exact Hrun|]. split; [reflexivity|]. split; [reflexivity|].
  split.
  - destruct (extract_video_frames_never_raises
                path 2 env (t ++ [EvPrint MSG_ANALYZING]))
      as [frames [t0 Hx]].
    rewrite (analyze_video_content_eq _ _ _ _ _ Hx) in Ha.
    destruct frames as [|frame rest].
    + injection Ha as <- _. vm_compute. now split.
    + destruct (generate_content env _ _ _); injection Ha as <- _.
      * apply strip_trimmed.
      * vm_compute. now split.
  - rewrite generate_description_eq in Hd. cbv zeta in Hd.
    destruct (generate_content env _ _ _); injection Hd as <- _.
    + apply strip_trimmed.
    + vm_compute. now split.
Qed.

End PipelineRun.

(* ===================================================================== *)
(** * Further properties of the frame sampler *)
(* ===================================================================== *)

Section SamplerBounds.
Local Open Scope Z_scope.

(** An iteration appends at most one frame. *)
Lemma sample_frame_appends cap T N i acc env t fs t' :
  sample_frame cap T N i acc env t = (Ok fs, t') ->
  fs = acc \/ exists img, fs = acc ++ [img].
Proof.
  unfold sample_frame, int_div, bind, cap_set_pos, cap_read_frame, call,
    cv2_cvtColor, Image_fromarray, Image_resize, ret, raise.
  destruct (int_truediv _ _) as [n|]; [|destruct (_ =? _); discriminate].
  destruct (cap_set cap n); [|discriminate].
  destruct (cap_read cap i n) as [[frame|]|]; [| |discriminate].
  - destruct (cvtColor env frame) as [rgb|]; [|discriminate].
    destruct (fromarray env rgb) as [pil|]; [|discriminate].
    destruct (resize env pil _) as [img|]; [|discriminate].
    intros H. injection H as <- _. right. now exists img.
  - intros H. injection H as <- _. now left.
Qed.

Lemma for_each_sample_length cap T N idxs :
  forall acc env t fs t',
    for_each idxs (sample_frame cap T N) acc env t = (Ok fs, t') ->
    (length fs <= length acc + length idxs)%nat.
Proof.
  induction idxs as [|i idxs IH]; intros acc env t fs t'; simpl.
  - unfold ret. intros H. injection H as <- _. lia.
  - unfold bind at 1.
    destruct (sample_frame cap T N i acc env t) as [[acc'|e] t1] eqn:E;
      [|discriminate].
    intros H. apply IH in H.
    apply sample_frame_appends in E as [->|[img ->]];
      rewrite ?length_app in H; simpl in H; lia.
Qed.

(** X9: Whatever the video does, [extract_video_frames] returns a list of at
    most [num_frames] frames and raises nothing; for a count of zero or
    less the list is empty. *)
Theorem frames_at_most_requested (env : Env) (t : trace) (path : str)
        (N : Z) :
  exists frames t',
    extract_video_frames path N env t = (Ok frames, t') /\
    (length frames <= Z.to_nat N)%nat /\
    (N <= 0 -> frames = []).
Proof.
  assert (exists frames t',
             extract_video_frames path N env t = (Ok frames, t') /\
             (length frames <= Z.to_nat N)%nat) as (frames & t' & Hrun & Hlen).
  { unfold extract_video_frames, try_except.
    destruct (extract_video_frames_try path N env t) as [[fs|e] t1] eqn:E.
    - exists fs, t1. split; [reflexivity|].
      unfold extract_video_frames_try, bind, cv2_VideoCapture,
        cap_get_frame_count, cap_release, call, ret in E.
      destruct (VideoCapture env path) as [cap|]; [|discriminate].
      destruct (cap_frame_count cap) as [T|]; [|discriminate].
      destruct (for_each _ _ _ env _) as [[fs'|] t2] eqn:Eloop;
        [|discriminate].
      injection E as <- _. apply for_each_sample_length in Eloop.
      rewrite range_length in Eloop. simpl in Eloop. lia.
    - eexists [], _. split; [reflexivity | simpl; lia]. }
  exists frames, t'. split; [exact Hrun|]. split; [exact Hlen|].
  intros HN. destruct frames; [reflexivity|]. simpl in Hlen. lia.
Qed.

(** ** Reads that decode nothing *)

Variables (env : Env) (path : str) (cap : Capture) (T N : Z).
Hypothesis readable : readable_video env path cap T.
Variable pos : Z -> Z.

Lemma sample_frame_readable (i : Z) (frames : list Image) (t : trace) :
  int_truediv ((i + 1) * T) (N + 1) = Some (pos i) ->
  exists new,
    sample_frame cap T N i frames env t
    = (Ok (frames ++ new), t ++ seek_and_read (pos i)) /\
    Forall2 (fun j img => sampled_at env cap j (pos j) img)
            (filter (fun j => decodes cap j (pos j)) [i]) new.
Proof.
  intros Hdiv.
  unfold sample_frame, int_div, bind, ret, cap_set_pos, cap_read_frame,
    call, cv2_cvtColor, Image_fromarray, Image_resize.
  rewrite Hdiv. unfold ret. rewrite (rv_seek readable).
  cbn [filter]. unfold decodes.
  destruct (rv_read readable i (pos i)) as [[frame|] Hread]; rewrite Hread.
  - destruct (rv_cvt readable frame) as [rgb Hrgb].
    destruct (rv_pil readable rgb) as [pil Hpil].
    destruct (rv_resize readable pil (512, 512)) as [img Himg].
    exists [img]. rewrite Hrgb, Hpil, Himg. split.
    + unfold seek_and_read. now rewrite <- app_assoc.
    + constructor; [|constructor]. now exists frame, rgb, pil.
  - exists []. split; [|constructor].
    unfold seek_and_read. now rewrite <- !app_assoc, app_nil_r.
Qed.

Lemma for_each_sample_readable (idxs : list Z) :
  computes_positions T N pos idxs ->
  forall (frames : list Image) (t : trace),
  exists new,
    for_each idxs (sample_frame cap T N) frames env t
    = (Ok (frames ++ new),
       t ++ flat_map (fun i => seek_and_read (pos i)) idxs) /\
    Forall2 (fun j img => sampled_at env cap j (pos j) img)
            (filter (fun j => decodes cap j (pos j)) idxs) new.
Proof.
  induction idxs as [|i idxs IH]; intros Hpos frames t.
  - exists []. simpl. unfold ret. rewrite !app_nil_r. split; constructor.
  - assert (computes_positions T N pos idxs) as Hrest.
    { intros j Hj. apply Hpos. now right. }
    destruct (sample_frame_readable i frames t (Hpos i (or_introl eq_refl)))
      as [new1 [Hstep Hnew1]].
    destruct (IH Hrest (frames ++ new1) (t ++ seek_and_read (pos i)))
      as [new2 [Hloop Hnew2]].
    exists (new1 ++ new2). split.
    + cbn [for_each flat_map]. unfold bind at 1. rewrite Hstep, Hloop.
      now rewrite <- !app_assoc.
    + change (i :: idxs) with ([i] ++ idxs). rewrite filter_app.
      now apply Forall2_app.
Qed.

Lemma extract_video_frames_readable (t : trace) :
  computes_positions T N pos (range N) ->
  exists frames,
    extract_video_frames path N env t
    = (Ok frames,
       t ++ [EvCapOpen path; EvCapGet]
         ++ flat_map (fun i => seek_and_read (pos i)) (range N)
         ++ [EvCapRelease]) /\
    Forall2 (fun j img => sampled_at env cap j (pos j) img)
            (filter (fun j => decodes cap j (pos j)) (range N)) frames.
Proof.
  intros Hpos.
  destruct (for_each_sample_readable _ Hpos []
              ((t ++ [EvCapOpen path]) ++ [EvCapGet]))
    as [frames [Hloop Hframes]].
  exists frames. split; [|exact Hframes].
  unfold extract_video_frames, extract_video_frames_try, try_except, bind,
    cv2_VideoCapture, cap_get_frame_count, cap_release, call.
  rewrite (rv_open readable), (rv_count readable), Hloop.
  unfold ret. cbn [app]. f_equal.
  rewrite <- !app_assoc. reflexivity.
Qed.

End SamplerBounds.

Section SamplerPositions.
Local Open Scope Z_scope.

Lemma sample_position_exact (T N i : Z) :
  0 <= T -> N * T < 2 ^ 53 -> 0 <= i < N ->
  int_truediv ((i + 1) * T) (N + 1) = Some (sample_position T N i).
Proof. intros HT Hb Hi. apply int_truediv_exact; nia. Qed.

Lemma sample_position_bounds (T N i : Z) :
  N + 1 <= T -> 0 <= i < N ->
  1 <= sample_position T N i <= T - 1 /\
  (N + 2 <= T -> sample_position T N i <= T - 2).
Proof.
  intros HT Hi. unfold sample_position. split; [split|].
  - apply Z.div_le_lower_bound; nia.
  - assert ((i + 1) * T / (N + 1) < T); [|lia].
    apply Z.div_lt_upper_bound; nia.
  - intros HT2. assert ((i + 1) * T / (N + 1) < T - 1); [|lia].
    apply Z.div_lt_upper_bound; nia.
Qed.

Lemma sample_position_increasing (T N i j : Z) :
  N + 1 <= T -> 0 <= i -> i < j -> j < N ->
  sample_position T N i < sample_position T N j.
Proof.
  intros HT Hi Hij Hj. unfold sample_position.
  assert ((i + 1) * T / (N + 1) + 1 <= (j + 1) * T / (N + 1)); [|lia].
  rewrite <- (Z.div_add _ 1 (N + 1)) by lia.
  apply Z.div_le_mono; nia.
Qed.

Lemma seek_positions_app (t d : trace) :
  seek_positions (t ++ d) = seek_positions t ++ seek_positions d.
Proof.
  induction t as [|ev t IH]; [reflexivity|].
  destruct ev; simpl; now rewrite IH.
Qed.

Lemma seek_positions_loop (pos : Z -> Z) (idxs : list Z) :
  seek_positions (flat_map (fun i => seek_and_read (pos i)) idxs)
  = map pos idxs.
Proof. induction idxs as [|i idxs IH]; simpl; [reflexivity | now rewrite IH]. Qed.

(** X10: On a video of [T >= N + 1] frames on which no call raises, with
    [N * T < 2 ^ 53], the seeks of [extract_video_frames] go to [N]
    strictly increasing positions between 1 and [T - 1], whether or not
    the reads that follow decode a frame; the first frame of the video is
    never sampled, and the last one only when [T = N + 1]. *)
Theorem seeks_are_spread_inside_the_video
        (env : Env) (t : trace) (path : str) (cap : Capture) (T N : Z)
        (Hvideo : readable_video env path cap T)
        (HT : N + 1 <= T) (Hexact : N * T < 2 ^ 53) :
  seek_positions (snd (extract_video_frames path N env t))
  = seek_positions t ++ map (sample_position T N) (range N) /\
  (forall i, 0 <= i < N ->
     1 <= sample_position T N i <= T - 1 /\
     (N + 2 <= T -> sample_position T N i <= T - 2)) /\
  (forall i j, 0 <= i -> i < j -> j < N ->
     sample_position T N i < sample_position T N j).
Proof.
  split; [|split].
  - destruct (Z_le_gt_dec N 0) as [HN|HN].
    + destruct (extract_video_frames_readable env path cap T N Hvideo
                  (sample_position T N) t) as [frames [Hrun _]].
      { intros i Hi. apply range_bounds in Hi. lia. }
      rewrite Hrun. cbn [snd].
      rewrite !seek_positions_app, seek_positions_loop. simpl.
      now rewrite app_nil_r.
    + destruct (extract_video_frames_readable env path cap T N Hvideo
                  (sample_position T N) t) as [frames [Hrun _]].
      { intros i Hi. apply range_bounds in Hi.
        apply sample_position_exact; lia. }
      rewrite Hrun. cbn [snd].
      rewrite !seek_positions_app, seek_positions_loop. simpl.
      now rewrite app_nil_r.
  - intros i Hi. now apply sample_position_bounds.
  - intros i j Hi Hij Hj. now apply sample_position_increasing.
Qed.

(** Thirty frames sampled four times. *)
Lemma seeks_are_spread_inside_the_video_witness :
  readable_video (studio (steady_capture 30) failing_model) CLIP
                 (steady_capture 30) 30 /\
  4 + 1 <= 30 /\ 4 * 30 < 2 ^ 53 /\
  seek_positions
    (snd (extract_video_frames CLIP 4
            (studio (steady_capture 30) failing_model) []))
  = [6; 12; 18; 24].
Proof.
  assert (readable_video (studio (steady_capture 30) failing_model) CLIP
                         (steady_capture 30) 30) as Hvideo.
  { constructor; simpl; eauto. }
  assert (4 + 1 <= 30) as HT by lia.
  assert (4 * 30 < 2 ^ 53) as Hexact by reflexivity.
  destruct (seeks_are_spread_inside_the_video
              (studio (steady_capture 30) failing_model) [] CLIP
              (steady_capture 30) 30 4 Hvideo HT Hexact) as [Hseeks _].
  split; [exact Hvideo|]. split; [exact HT|]. split; [exact Hexact|].
  rewrite Hseeks. vm_compute. reflexivity.
Defined.

(** X11: On a video on which no call raises, the frames returned are those of
    the iterations whose read decodes a frame, in the order of the
    iterations; an iteration whose read decodes nothing is passed over,
    without a second attempt, and the capture is released at the end. *)
Theorem undecoded_frames_are_skipped
        (env : Env) (t : trace) (path : str) (cap : Capture) (T N : Z)
        (Hvideo : readable_video env path cap T)
        (HT : 0 <= T) (Hexact : N * T < 2 ^ 53) :
  exists frames,
    extract_video_frames path N env t
    = (Ok frames,
       t ++ [EvCapOpen path; EvCapGet]
         ++ flat_map (fun i => seek_and_read (sample_position T N i))
                     (range N)
         ++ [EvCapRelease]) /\
    Forall2 (fun i img => sampled_at env cap i (sample_position T N i) img)
            (filter (fun i => decodes cap i (sample_position T N i))
                    (range N))
            frames.
Proof.
  apply (extract_video_frames_readable env path cap T N Hvideo).
  intros i Hi. apply range_bounds in Hi.
  apply sample_position_exact; lia.
Qed.

(** Four samples of a capture whose odd reads decode nothing: the frames
    at the positions 6 and 18 are returned. *)
Lemma undecoded_frames_are_skipped_witness :
  readable_video (studio (flaky_capture 30) failing_model) CLIP
                 (flaky_capture 30) 30 /\
  0 <= 30 /\ 4 * 30 < 2 ^ 53 /\
  fst (extract_video_frames CLIP 4
         (studio (flaky_capture 30) failing_model) [])
  = Ok [PilImage 6; PilImage 18].
Proof.
  assert (readable_video (studio (flaky_capture 30) failing_model) CLIP
                         (flaky_capture 30) 30) as Hvideo.
  { constructor; simpl; eauto.
    intros i n. destruct (Z.odd i); eauto. }
  assert (0 <= 30) as HT by lia.
  assert (4 * 30 < 2 ^ 53) as Hexact by reflexivity.
  destruct (undecoded_frames_are_skipped
              (studio (flaky_capture 30) failing_model) [] CLIP
              (flaky_capture 30) 30 4 Hvideo HT Hexact)
    as [frames [Hrun _]].
  split; [exact Hvideo|]. split; [exact HT|]. split; [exact Hexact|].
  vm_compute. reflexivity.
Defined.

End SamplerPositions.

(* ===================================================================== *)
(** * The constructor and the saved file *)
(* ===================================================================== *)

Section PersistenceProperties.

(** X12: The constructor succeeds exactly when the parameter or, failing
    that, the variable [GEMINI_API_KEY] of the environment is a string
    that is not empty; an empty parameter counts as absent.  On success
    the stored key is that string and the client is configured with it
    before the model is created; on failure nothing is configured. *)
Theorem constructor_needs_a_key
        (sys : System) (t : list sys_event) (api_key : option str) :
  let env_key := getenv sys GEMINI_API_KEY in
  let chosen := if truthy api_key then api_key else env_key in
  (truthy chosen = false ->
   __init__ api_key sys t = (Raise (Exception KEY_NOT_FOUND), t)) /\
  (truthy chosen = true ->
   exists key,
     chosen = Some key /\ key <> [] /\
     __init__ api_key sys t
     = (Ok {| self_api_key := Some key; self_model := MODEL_NAME |},
        t ++ [SysConfigure key; SysModel MODEL_NAME])).
Proof.
  intros env_key chosen.
  unfold __init__, sbind, sraise, scall, sret, py_or.
  fold env_key. fold chosen. split; intros H; rewrite H; cbn [negb].
  - reflexivity.
  - destruct chosen as [[|c k]|]; try discriminate.
    exists (c :: k). split; [reflexivity|]. split; [discriminate|].
    now rewrite <- app_assoc.
Qed.

(** An empty parameter with a key in the environment, and no key at
    all. *)
Lemma constructor_needs_a_key_witness :
  __init__ (Some []) working_system []
  = (Ok {| self_api_key := Some (lit "k-123"); self_model := MODEL_NAME |},
     [SysConfigure (lit "k-123"); SysModel MODEL_NAME]) /\
  __init__ None full_disk [] = (Raise (Exception KEY_NOT_FOUND), []).
Proof.
  split.
  - destruct (constructor_needs_a_key working_system [] (Some []))
      as [_ Hok].
    destruct (Hok eq_refl) as (key & Hkey & _ & ->).
    injection Hkey as <-. reflexivity.
  - destruct (constructor_needs_a_key full_disk [] None) as [Hfail _].
    now rewrite (Hfail eq_refl).
Defined.


(** ** String literals *)

Lemma below_32 (c : N) :
  (c < 32)%N -> In c (map N.of_nat (seq 0 32)).
Proof.
  intros H. apply in_map_iff. exists (N.to_nat c). split.
  - apply N2Nat.id.
  - apply in_seq. lia.
Qed.

Lemma unescape_escape_char (c : char) (r : str) :
  unescape (escape_char c ++ r) = option_map (cons c) (unescape r).
Proof.
  destruct (N.ltb_spec c 32) as [Hlow|Hhigh].
  - apply below_32 in Hlow. cbn [seq map N.of_nat] in Hlow.
    repeat (destruct Hlow as [<-|Hlow];
            [cbn; destruct (unescape r); reflexivity|]).
    destruct Hlow.
  - unfold escape_char.
    destruct (N.eqb_spec c DQUOTE) as [->|H1];
      [cbn; destruct (unescape r); reflexivity|].
    destruct (N.eqb_spec c BACKSLASH) as [->|H2];
      [cbn; destruct (unescape r); reflexivity|].
    assert (c <> 10 /\ c <> 13 /\ c <> 9 /\ c <> 8 /\ c <> 12)%N
      as (H3 & H4 & H5 & H6 & H7) by lia.
    rewrite (proj2 (N.eqb_neq c 10) H3), (proj2 (N.eqb_neq c 13) H4),
      (proj2 (N.eqb_neq c 9) H5), (proj2 (N.eqb_neq c 8) H6),
      (proj2 (N.eqb_neq c 12) H7), (proj2 (N.ltb_ge c 32) Hhigh).
    cbn [app unescape]. now rewrite (proj2 (N.eqb_neq c BACKSLASH) H2).
Qed.

Lemma unescape_escape (s : str) :
  unescape (flat_map escape_char s) = Some s.
Proof.
  induction s as [|c s IH]; [reflexivity|].
  cbn [flat_map]. now rewrite unescape_escape_char, IH.
Qed.

Lemma escape_char_plain (c : char) :
  (32 <= c)%N -> c <> DQUOTE -> c <> BACKSLASH -> escape_char c = [c].
Proof.
  intros Hhigh H1 H2. unfold escape_char.
  assert (c <> 10 /\ c <> 13 /\ c <> 9 /\ c <> 8 /\ c <> 12)%N
    as (H3 & H4 & H5 & H6 & H7) by lia.
  now rewrite (proj2 (N.eqb_neq c DQUOTE) H1),
    (proj2 (N.eqb_neq c BACKSLASH) H2),
    (proj2 (N.eqb_neq c 10) H3), (proj2 (N.eqb_neq c 13) H4),
    (proj2 (N.eqb_neq c 9) H5), (proj2 (N.eqb_neq c 8) H6),
    (proj2 (N.eqb_neq c 12) H7), (proj2 (N.ltb_ge c 32) Hhigh).
Qed.

Lemma all_printable_dec (s : str) :
  forallb (fun x => 32 <=? x)%N s = true -> Forall (fun x => 32 <= x)%N s.
Proof.
  intros H. apply Forall_forall. intros x Hx.
  rewrite forallb_forall in H. now apply N.leb_le, H.
Qed.

Lemma escape_char_printable (c : char) :
  Forall (fun x => 32 <= x)%N (escape_char c).
Proof.
  destruct (N.ltb_spec c 32) as [Hlow|Hhigh].
  - apply below_32 in Hlow. cbn [seq map N.of_nat] in Hlow.
    repeat (destruct Hlow as [<-|Hlow];
            [apply all_printable_dec; reflexivity|]).
    destruct Hlow.
  - destruct (N.eq_dec c DQUOTE) as [->|H1];
      [apply all_printable_dec; reflexivity|].
    destruct (N.eq_dec c BACKSLASH) as [->|H2];
      [apply all_printable_dec; reflexivity|].
    rewrite escape_char_plain by assumption. now repeat constructor.
Qed.

(** The literal written for a string determines the string, and every
    character of it is [U+0020] or above: the characters below, among
    them the line feed, are written as escapes. *)
Lemma json_string_is_faithful (s1 s2 : str) :
  (json_string s1 = json_string s2 -> s1 = s2) /\
  Forall (fun c => 32 <= c)%N (json_string s1) /\
  ~ In LF (json_string s1).
Proof.
  assert (Forall (fun c => 32 <= c)%N (json_string s1)) as Hprint.
  { unfold json_string. apply Forall_app.
    split; [apply all_printable_dec; reflexivity|].
    apply Forall_app. split; [|apply all_printable_dec; reflexivity].
    induction s1 as [|c s IH]; [constructor|].
    cbn [flat_map]. apply Forall_app. split;
      [apply escape_char_printable | exact IH]. }
  split; [|split; [exact Hprint|]].
  - unfold json_string. intros H. injection H as H.
    apply app_inv_tail in H.
    pose proof (unescape_escape s1) as H1. rewrite H in H1.
    rewrite unescape_escape in H1. congruence.
  - intros Hin. rewrite Forall_forall in Hprint. apply Hprint in Hin.
    unfold LF in Hin. lia.
Qed.

End PersistenceProperties.

(* ===================================================================== *)
(** * The shortcode of a reel *)
(* ===================================================================== *)

Section Shortcode.

Lemma fields_word (sep : char -> bool) (w : str) :
  Forall (fun c => sep c = false) w -> fields sep w = [w].
Proof.
  induction 1 as [|c w Hc _ IH]; simpl; [reflexivity|].
  now rewrite Hc, IH.
Qed.

Lemma fields_app_sep (sep : char -> bool) (s r : str) (c : char) :
  sep c = true -> fields sep (s ++ c :: r) = fields sep s ++ fields sep r.
Proof.
  intros Hc. induction s as [|x s IH]; simpl.
  - now rewrite Hc.
  - destruct (sep x); rewrite IH; [reflexivity|].
    destruct (fields sep s) as [|w ws] eqn:E; [|reflexivity].
    destruct s as [|y s']; simpl in E; [discriminate|].
    destruct (sep y); [discriminate|].
    destruct (fields sep s'); discriminate.
Qed.

Lemma parts_of_separators (sep : char -> bool) (s : str) :
  Forall (fun c => sep c = true) s -> filter nonempty (fields sep s) = [].
Proof.
  induction 1 as [|c s Hc _ IH]; simpl; [reflexivity|].
  rewrite Hc. simpl. exact IH.
Qed.

Lemma parts_skip_leading (sep : char -> bool) (pre s : str) :
  Forall (fun c => sep c = true) pre ->
  filter nonempty (fields sep (pre ++ s)) = filter nonempty (fields sep s).
Proof.
  induction 1 as [|c pre Hc _ IH]; simpl; [reflexivity|].
  rewrite Hc. simpl. exact IH.
Qed.

Lemma parts_skip_trailing (sep : char -> bool) (s post : str) :
  Forall (fun c => sep c = true) post ->
  filter nonempty (fields sep (s ++ post)) = filter nonempty (fields sep s).
Proof.
  intros H. destruct H as [|c post Hc Hpost].
  - now rewrite app_nil_r.
  - rewrite fields_app_sep by assumption.
    rewrite filter_app, (parts_of_separators sep post Hpost).
    apply app_nil_r.
Qed.

Lemma lstrip_chars_split (p : char -> bool) (s : str) :
  exists pre, s = pre ++ lstrip_chars p s /\
              Forall (fun c => p c = true) pre.
Proof.
  induction s as [|c s [pre [E Hpre]]]; simpl.
  - now exists [].
  - destruct (p c) eqn:Hc.
    + exists (c :: pre). split; [simpl; now f_equal | now constructor].
    + now exists [].
Qed.

Lemma rstrip_chars_split (p : char -> bool) (s : str) :
  exists post, s = rstrip_chars p s ++ post /\
               Forall (fun c => p c = true) post.
Proof.
  induction s as [|c s [post [E Hpost]]]; simpl.
  - now exists [].
  - destruct (rstrip_chars p s) as [|d r].
    + destruct (p c) eqn:Hc.
      * exists (c :: post). split; [simpl in *; now f_equal |
                                    now constructor].
      * exists post. split; [simpl in *; now f_equal | assumption].
    + exists post. split; [simpl in *; now f_equal | assumption].
Qed.

(** The slashes that [strip] removes would only have given empty
    parts. *)
Lemma path_parts_fields (path : str) :
  path_parts path = filter nonempty (fields is_slash path).
Proof.
  unfold path_parts, strip_chars, split_on. fold is_slash.
  destruct (lstrip_chars_split is_slash path) as [pre [E1 Hpre]].
  destruct (rstrip_chars_split is_slash (lstrip_chars is_slash path))
    as [post [E2 Hpost]].
  rewrite E1 at 2. rewrite parts_skip_leading by assumption.
  rewrite E2 at 2. now rewrite parts_skip_trailing by assumption.
Qed.

Lemma path_parts_clean (path part : str) :
  In part (path_parts path) ->
  part <> [] /\ ~ In SLASH part /\ (forall c, In c part -> In c path).
Proof.
  rewrite path_parts_fields. intros H. apply filter_In in H as [Hin Hne].
  split; [destruct part; discriminate|]. split.
  - intros Hs. pose proof (fields_no_sep is_slash path) as Hno.
    rewrite Forall_forall in Hno. specialize (Hno part Hin).
    rewrite Forall_forall in Hno. specialize (Hno SLASH Hs).
    unfold is_slash in Hno. now rewrite N.eqb_refl in Hno.
  - intros c Hc. now apply (fields_incl is_slash path part).
Qed.

Lemma last_in {A} (l : list A) (d : A) : l <> [] -> In (last l d) l.
Proof.
  induction l as [|x l IH]; [congruence|]. intros _.
  destruct l as [|y l']; [now left|].
  right. apply IH. discriminate.
Qed.

Lemma choose_shortcode_in (parts : list str) :
  parts <> [] -> In (choose_shortcode parts) parts.
Proof.
  intros Hne. unfold choose_shortcode.
  destruct parts as [|kind [|code rest]]; [congruence | now left |].
  destruct (is_post_kind kind); [right; now left|].
  apply last_in. discriminate.
Qed.

Lemma no_parts_iff (path : str) :
  path_parts path = [] <-> Forall (fun c => c = SLASH) path.
Proof.
  rewrite path_parts_fields. split.
  - induction path as [|c path IH]; simpl; [constructor|].
    destruct (is_slash c) eqn:Hc; simpl.
    + intros H. constructor; [|now apply IH].
      symmetry. now apply N.eqb_eq.
    + destruct (fields is_slash path); discriminate.
  - intros H. apply parts_of_separators.
    apply Forall_forall. intros c Hc. rewrite Forall_forall in H.
    rewrite (H c Hc). apply N.eqb_refl.
Qed.

(** X15: The shortcode taken from a path holds no slash and consists of
    characters of the path; it is empty exactly when the path has nothing
    but slashes.  An error of the URL parser is passed on. *)
Theorem shortcode_is_a_path_segment
        (web : Web) (t : list net_event) (url : str) :
  match urlparse_path web url with
  | Return path =>
      exists code,
        extract_shortcode url web t = (Return code, t) /\
        ~ In SLASH code /\
        (forall c, In c code -> In c path) /\
        (code = [] <-> Forall (fun c => c = SLASH) path)
  | Throw r => extract_shortcode url web t = (Throw r, t)
  end.
Proof.
  unfold extract_shortcode, dbind, dask, dret.
  destruct (urlparse_path web url) as [path|r]; [|reflexivity].
  exists (choose_shortcode (path_parts path)). split; [reflexivity|].
  destruct (path_parts path) as [|part parts] eqn:E.
  - cbn. split; [tauto|]. split; [tauto|].
    split; [intros _; now apply no_parts_iff | reflexivity].
  - assert (In (choose_shortcode (part :: parts)) (path_parts path)) as Hin.
    { rewrite E. apply choose_shortcode_in. discriminate. }
    apply path_parts_clean in Hin as (Hne & Hslash & Hsub).
    split; [exact Hslash|]. split; [exact Hsub|]. split.
    + intros Hnil. congruence.
    + intros Hall. apply no_parts_iff in Hall. congruence.
Qed.

Lemma str_eqb_eq (s1 s2 : str) : PyStr.eqb s1 s2 = true -> s1 = s2.
Proof.
  revert s2. induction s1 as [|a s1 IH]; intros [|b s2]; simpl;
    try discriminate; [reflexivity|].
  intros H. apply andb_true_iff in H as [Hab H].
  apply N.eqb_eq in Hab. subst b. f_equal. now apply IH.
Qed.

Lemma is_post_kind_no_slash (kind : str) :
  is_post_kind kind = true -> Forall (fun c => is_slash c = false) kind.
Proof.
  unfold is_post_kind. intros H.
  apply orb_true_iff in H as [H|H]; apply str_eqb_eq in H; subst kind;
    repeat constructor.
Qed.

Lemma parts_of_reel_path (kind code rest : str) :
  is_post_kind kind = true -> code <> [] -> ~ In SLASH code ->
  rest = [] \/ (exists r, rest = SLASH :: r) ->
  choose_shortcode (path_parts ([SLASH] ++ kind ++ [SLASH] ++ code ++ rest))
  = code.
Proof.
  intros Hkind Hcode Hplain Hrest.
  rewrite path_parts_fields.
  assert (Forall (fun c => is_slash c = false) code) as Hc.
  { apply Forall_forall. intros c Hin. unfold is_slash.
    apply N.eqb_neq. intros <-. contradiction. }
  assert (exists more,
             fields is_slash (code ++ rest) = code :: more) as [more Hmore].
  { destruct Hrest as [->|[r ->]].
    - rewrite app_nil_r, fields_word by assumption. now exists [].
    - rewrite fields_app_sep by apply N.eqb_refl.
      rewrite fields_word by assumption. now eexists. }
  cbn [app fields]. unfold is_slash at 1. rewrite N.eqb_refl.
  change (kind ++ SLASH :: code ++ rest)
    with (kind ++ SLASH :: (code ++ rest)).
  rewrite fields_app_sep by apply N.eqb_refl.
  rewrite fields_word by now apply is_post_kind_no_slash.
  rewrite Hmore. cbn [app filter nonempty].
  assert (kind <> []) as Hk by (intros ->; discriminate).
  destruct kind as [|k0 kind']; [congruence|].
  destruct code as [|c0 code']; [congruence|].
  cbn [nonempty filter choose_shortcode]. now rewrite Hkind.
Qed.

(** X16: For a URL whose path is [/reel/CODE] or [/p/CODE], with or without
    further segments behind a slash, the shortcode is [CODE]. *)
Theorem shortcode_follows_reel_or_p
        (web : Web) (t : list net_event) (url kind code rest : str)
        (Hurl : urlparse_path web url
                = Return ([SLASH] ++ kind ++ [SLASH] ++ code ++ rest))
        (Hkind : kind = lit "reel" \/ kind = lit "p")
        (Hcode : code <> [])
        (Hplain : ~ In SLASH code)
        (Hrest : rest = [] \/ exists r, rest = SLASH :: r) :
  extract_shortcode url web t = (Return code, t).
Proof.
  unfold extract_shortcode, dbind, dask, dret. rewrite Hurl.
  rewrite parts_of_reel_path; try assumption; [reflexivity|].
  destruct Hkind as [->| ->]; reflexivity.
Qed.

(** The path of a shared reel link. *)
Lemma shortcode_follows_reel_or_p_witness :
  extract_shortcode (lit "/reel/Cx1yZ/") (site photo_post) []
  = (Return (lit "Cx1yZ"), []).
Proof.
  apply (shortcode_follows_reel_or_p
           (site photo_post) [] (lit "/reel/Cx1yZ/")
           (lit "reel") (lit "Cx1yZ") [SLASH]).
  - reflexivity.
  - now left.
  - discriminate.
  - vm_compute. intros H. repeat (destruct H as [H|H]; [discriminate|]).
    exact H.
  - right. now exists [].
Defined.

End Shortcode.

(* ===================================================================== *)
(** * The download and its errors *)
(* ===================================================================== *)

Section Download.




Lemma first_video_url_none (nodes : list (outcome Node)) current web t :
  Forall (fun n => exists node, n = Return node /\ is_video node = false)
         nodes ->
  first_video_url nodes current web t = (Return current, t).
Proof.
  induction 1 as [|n nodes [node [-> Hnode]] _ IH]; simpl; [reflexivity|].
  now rewrite Hnode.
Qed.

(** X18: A post without a video (its own URL is missing or empty, and it is
    no sidecar or a sidecar without a video node) ends in the wrapped
    error [No video URL found for this post]; no directory is created and
    nothing is downloaded. *)
Theorem post_without_video_downloads_nothing
        (web : Web) (t : list net_event) (url dir path : str)
        (post : Post) (own : option str) (kind : str)
        (Hurl : urlparse_path web url = Return path)
        (Hloader : Instaloader web = Return tt)
        (Hpost : Post_from_shortcode web (choose_shortcode (path_parts path))
                 = Return post)
        (Hown : video_url post = Return own)
        (Hempty : truthy own = false)
        (Hkind : typename post = Return kind)
        (Hnodes : PyStr.eqb kind GRAPH_SIDECAR = false \/
                  Forall (fun n => exists node,
                              n = Return node /\ is_video node = false)
                         (get_sidecar_nodes post)) :
  download_reel_with_audio url dir web t
  = (Throw (Error (Exception (FAILED_PREFIX ++ NO_VIDEO_URL))),
     t ++ [NetInstaloader; NetPost (choose_shortcode (path_parts path))]).
Proof.
  unfold download_reel_with_audio, dtry, download_reel_try,
    extract_shortcode, dbind, dcall, dask, dret.
  rewrite Hloader, Hurl, Hpost, Hown, Hempty, Hkind.
  assert ((if PyStr.eqb kind GRAPH_SIDECAR
           then first_video_url (get_sidecar_nodes post) own
           else fun _ t0 => (Return own, t0)) web
            ((t ++ [NetInstaloader])
               ++ [NetPost (choose_shortcode (path_parts path))])
          = (Return own,
             (t ++ [NetInstaloader])
               ++ [NetPost (choose_shortcode (path_parts path))])) as ->.
  { destruct Hnodes as [-> | Hall]; [reflexivity|].
    destruct (PyStr.eqb kind GRAPH_SIDECAR); [|reflexivity].
    now apply first_video_url_none. }
  rewrite <- app_assoc.
  destruct own as [[|c u]|]; try discriminate; reflexivity.
Qed.

(** A photo post. *)
Lemma post_without_video_downloads_nothing_witness :
  download_reel_with_audio (lit "/p/Cx1yZ/") DEFAULT_DIR
                           (site photo_post) []
  = (Throw (Error (Exception
                     (lit "Failed to download reel: No video URL found for this post"))),
     [NetInstaloader; NetPost (lit "Cx1yZ")]).
Proof.
  apply (post_without_video_downloads_nothing
           (site photo_post) [] (lit "/p/Cx1yZ/") DEFAULT_DIR
           (lit "/p/Cx1yZ/") photo_post None (lit "GraphImage"));
    try reflexivity.
  now left.
Defined.

Lemma first_video_url_found (pre rest : list (outcome Node)) (node : Node)
      current web t :
  Forall (fun n => exists other, n = Return other /\ is_video other = false)
         pre ->
  is_video node = true ->
  first_video_url (pre ++ Return node :: rest) current web t
  = (Return (node_video_url node), t).
Proof.
  intros Hpre Hnode.
  induction Hpre as [|n pre [other [-> Hother]] _ IH]; simpl.
  - now rewrite Hnode.
  - now rewrite Hother.
Qed.

(** X19: For a sidecar post without a URL of its own, the first node that is
    a video decides, and the nodes behind it are not looked at: its URL is
    the one downloaded, to [reel_<shortcode>] in the download directory,
    and when that node has no URL the download fails with [No video URL
    found for this post] even if a later node has one. *)
Theorem sidecar_uses_first_video_node
        (web : Web) (t : list net_event) (url dir path : str)
        (post : Post) (own : option str)
        (pre rest : list (outcome Node)) (node : Node)
        (Hurl : urlparse_path web url = Return path)
        (Hloader : Instaloader web = Return tt)
        (Hpost : Post_from_shortcode web (choose_shortcode (path_parts path))
                 = Return post)
        (Hown : video_url post = Return own)
        (Hempty : truthy own = false)
        (Hkind : typename post = Return GRAPH_SIDECAR)
        (Hnodes : get_sidecar_nodes post = pre ++ Return node :: rest)
        (Hpre : Forall (fun n => exists other,
                            n = Return other /\ is_video other = false) pre)
        (Hnode : is_video node = true) :
  let code := choose_shortcode (path_parts path) in
  let file := os_path_join web dir (lit "reel_" ++ code) in
  (truthy (node_video_url node) = false ->
   download_reel_with_audio url dir web t
   = (Throw (Error (Exception (FAILED_PREFIX ++ NO_VIDEO_URL))),
      t ++ [NetInstaloader; NetPost code])) /\
  (forall u flag,
     node_video_url node = Some u -> u <> [] ->
     os_makedirs web dir = Return tt ->
     download_pic web file u (date_utc post) = Return flag ->
     os_path_exists web (file ++ lit ".mp4") = true ->
     download_reel_with_audio url dir web t
     = (Return (file ++ lit ".mp4"),
        t ++ [NetInstaloader; NetPost code; NetMakedirs dir;
              NetPrint DOWNLOADING;
              NetDownload file u (date_utc post)])).
Proof.
  cbv zeta.
  assert (forall t0,
             (if truthy own then dret own
              else dbind (dask (fun _ => typename post)) (fun kind =>
                   if PyStr.eqb kind GRAPH_SIDECAR
                   then first_video_url (get_sidecar_nodes post) own
                   else dret own)) web t0
             = (Return (node_video_url node), t0)) as Hpick.
  { intros t0. rewrite Hempty. unfold dbind, dask. rewrite Hkind.
    replace (PyStr.eqb GRAPH_SIDECAR GRAPH_SIDECAR) with true by reflexivity.
    rewrite Hnodes. now apply first_video_url_found. }
  split.
  - intros Hnone.
    unfold download_reel_with_audio, dtry, download_reel_try,
      extract_shortcode.
    unfold dbind at 1 2 3 4 5 6, dcall at 1 2, dask at 1 2, dret at 1.
    rewrite Hloader, Hurl, Hpost, Hown, Hpick.
    rewrite <- app_assoc.
    destruct (node_video_url node) as [[|c u]|]; try discriminate;
      reflexivity.
  - intros u flag Hu Hne Hmk Hdl Hex.
    unfold download_reel_with_audio, dtry, download_reel_try,
      extract_shortcode.
    unfold dbind at 1 2 3 4 5 6, dcall at 1 2, dask at 1 2, dret at 1.
    rewrite Hloader, Hurl, Hpost, Hown, Hpick, Hu.
    destruct u as [|c u]; [congruence|].
    unfold find_downloaded, dbind, dprint, dcall, dask, dret.
    rewrite Hmk, Hdl, Hex. cbv beta iota. rewrite ?Hex.
    now rewrite <- !app_assoc.
Qed.

(** A sidecar of a photo and two videos. *)
Lemma sidecar_uses_first_video_node_witness :
  let post :=
    {| video_url := Return None;
       typename := Return GRAPH_SIDECAR;
       get_sidecar_nodes :=
         [ Return {| is_video := false; node_video_url := None |};
           Return {| is_video := true;
                     node_video_url := Some (lit "https://cdn.example/a.mp4") |};
           Return {| is_video := true;
                     node_video_url := Some (lit "https://cdn.example/b.mp4") |} ];
       date_utc := 7%N |} in
  download_reel_with_audio (lit "/reel/Cx1yZ/") DEFAULT_DIR (site post) []
  = (Return (lit "downloads/reel_Cx1yZ.mp4"),
     [NetInstaloader; NetPost (lit "Cx1yZ"); NetMakedirs DEFAULT_DIR;
      NetPrint DOWNLOADING;
      NetDownload (lit "downloads/reel_Cx1yZ")
                  (lit "https://cdn.example/a.mp4") 7%N]).
Proof.
  intros post.
  assert (Forall (fun n => exists other,
                      n = Return other /\ is_video other = false)
                 [Return {| is_video := false; node_video_url := None |}])
    as Hpre.
  { constructor; [|constructor]. eexists. split; reflexivity. }
  destruct (sidecar_uses_first_video_node
              (site post) [] (lit "/reel/Cx1yZ/") DEFAULT_DIR
              (lit "/reel/Cx1yZ/") post None
              [Return {| is_video := false; node_video_url := None |}]
              [Return {| is_video := true;
                         node_video_url :=
                           Some (lit "https://cdn.example/b.mp4") |}]
              {| is_video := true;
                 node_video_url := Some (lit "https://cdn.example/a.mp4") |}
              eq_refl eq_refl eq_refl eq_refl eq_refl eq_refl eq_refl
              Hpre eq_refl)
    as [_ Hok].
  apply (Hok (lit "https://cdn.example/a.mp4") true);
    try reflexivity. discriminate.
Defined.

(** X20: [main] always returns: an interrupt and every other exception of
    the dialogue or of the download end in printed lines.  A blank
    answer ends it without a download; an interrupt at the prompt prints
    the cancellation; a failed download prints the error and the
    tips. *)
Theorem main_handles_every_outcome (web : Web) (t : list net_event) :
  let asked :=
    t ++ [NetPrint BANNER; NetPrint RULE; NetInput ASK_URL] in
  exists t',
    main web t = (Return tt, t') /\
    (forall answer,
       input web ASK_URL = Return answer -> strip answer = [] ->
       t' = asked ++ [NetPrint NO_URL]) /\
    (input web ASK_URL = Throw KeyboardInterrupt ->
     t' = asked ++ [NetPrint CANCELLED]) /\
    (forall answer e t1,
       input web ASK_URL = Return answer -> strip answer <> [] ->
       download_reel_with_audio (strip answer) DEFAULT_DIR web
         (asked ++ [NetPrint STARTING])
       = (Throw (Error e), t1) ->
       t' = t1 ++ [NetPrint ([10%N] ++ [10060%N] ++ lit " Error: "
                               ++ exn_msg e);
                   NetPrint TIPS; NetPrint TIP_URL; NetPrint TIP_PRIVATE]).
Proof.
  intros asked. unfold main, dbind at 1 2, dprint at 1 2, dcall at 1 2.
  unfold dtry_interrupt.
  match goal with
  | |- context [match ?body web ?t0 with _ => _ end] =>
      set (run := body web t0);
      assert (t0 = t ++ [NetPrint BANNER; NetPrint RULE]) as Et0
        by (now rewrite <- app_assoc)
  end.
  assert (asked = (t ++ [NetPrint BANNER; NetPrint RULE])
                    ++ [NetInput ASK_URL]) as Easked
    by (unfold asked; now rewrite <- app_assoc).
  destruct run as [[[]|[|e]] t1] eqn:Erun; unfold run in Erun;
    rewrite Et0 in Erun; unfold dbind at 1, dcall at 1 in Erun;
    rewrite <- Easked in Erun.
  - exists t1. split; [reflexivity|]. split; [|split].
    + intros answer Hin Hblank. rewrite Hin, Hblank in Erun.
      unfold dprint, dcall in Erun. now injection Erun as <-.
    + intros Hin. rewrite Hin in Erun. discriminate.
    + intros answer e t2 Hin Hurl Hfail. rewrite Hin in Erun.
      destruct (strip answer) as [|c u] eqn:Es; [congruence|].
      unfold dbind at 1, dprint at 1, dcall at 1 in Erun.
      unfold dbind at 1 in Erun. rewrite Hfail in Erun. discriminate.
  - eexists. split; [reflexivity|]. split; [|split].
    + intros answer Hin Hblank. rewrite Hin, Hblank in Erun.
      discriminate.
    + intros Hin. rewrite Hin in Erun. now injection Erun as <-.
    + intros answer e t2 Hin Hurl Hfail. rewrite Hin in Erun.
      destruct (strip answer) as [|c u] eqn:Es; [congruence|].
      unfold dbind at 1, dprint at 1, dcall at 1 in Erun.
      unfold dbind at 1 in Erun. rewrite Hfail in Erun. discriminate.
  - eexists. split; [reflexivity|]. split; [|split].
    + intros answer Hin Hblank. rewrite Hin, Hblank in Erun.
      discriminate.
    + intros Hin. rewrite Hin in Erun. discriminate.
    + intros answer e' t2 Hin Hurl Hfail. rewrite Hin in Erun.
      destruct (strip answer) as [|c u] eqn:Es; [congruence|].
      unfold dbind at 1, dprint at 1, dcall at 1 in Erun.
      unfold dbind at 1 in Erun. rewrite Hfail in Erun.
      injection Erun as <- <-.
      unfold dbind, dprint, dcall. now rewrite <- !app_assoc.
Qed.

End Download.
